(** * PortScanner backend: a shallow embedding of [backend/server.js]

    The development follows the source file top to bottom: the address
    classifier ([isPrivateIpv4], [isPrivateIpv6], [isPrivateIp]), the
    validators ([isValidDomain], [dedupePorts], [validatePorts],
    [resolveTarget]), the rate limiter ([enforceRateLimit]), the TCP probe
    ([performPortCheck]) and the request handler ([handleScan]).  After
    them come the request listener of the server and the parts of the
    client's [App] component that build the request: the port selection,
    the form and the history.

    JavaScript values are modelled by an inductive type, numbers as the
    doubles they are, with the string-to-number conversion of the language,
    thrown [Error]s by a result type carrying the message, the process-wide
    [rateLimitMap] by explicit state passing over a [gmap], and the socket
    of a probe by the events that the network and the idle timer of the
    socket cause on it. *)

From Stdlib Require Import ZArith String Ascii List Bool Lia DecimalString SpecFloat.
From stdpp Require Import gmap strings list.

Import ListNotations.
Set Warnings "-register-all".
#[local] Arguments String.append !s1 s2 : simpl nomatch.
Local Open Scope string_scope.
Local Open Scope Z_scope.

(** ** Thrown errors *)

(** [throw new Error(message)] against a normal return. *)
Inductive result (A : Type) : Type :=
| Ok (a : A)
| Throw (message : string).
Arguments Ok {A} a.
Arguments Throw {A} message.

(** Sequencing: a throw in the first computation propagates. It is
    written [x ← r; k] with stdpp's monad notation. *)
#[global] Instance result_bind : MBind result :=
  fun A B (k : A -> result B) (r : result A) =>
    match r with
    | Ok a => k a
    | Throw m => Throw m
    end.

(** ** JavaScript strings

    A string is a sequence of code units; the model covers the code units
    below 256, one [ascii] each. *)
Module JsString.

Definition code (c : ascii) : nat := nat_of_ascii c.

Definition between (lo hi : nat) (c : ascii) : bool :=
  Nat.leb lo (code c) && Nat.leb (code c) hi.

(** [String.prototype.toLowerCase] on one code unit: A-Z, and the Latin-1
    capitals U+00C0..U+00DE except the multiplication sign U+00D7. *)
Definition lower_char (c : ascii) : ascii :=
  if between 65 90 c || (between 192 222 c && negb (Nat.eqb (code c) 215))
  then ascii_of_nat (code c + 32)
  else c.

Fixpoint toLowerCase (s : string) : string :=
  match s with
  | EmptyString => EmptyString
  | String c s' => String (lower_char c) (toLowerCase s')
  end.

(** White space and line terminators below 256: TAB, LF, VT, FF, CR, SP and
    NBSP. [trim] and the string-to-number conversion strip the same set. *)
Definition is_whitespace (c : ascii) : bool :=
  between 9 13 c || Nat.eqb (code c) 32 || Nat.eqb (code c) 160.

Fixpoint trimStart (s : string) : string :=
  match s with
  | EmptyString => EmptyString
  | String c s' => if is_whitespace c then trimStart s' else s
  end.

Fixpoint trimEnd (s : string) : string :=
  match s with
  | EmptyString => EmptyString
  | String c s' =>
      match trimEnd s' with
      | EmptyString => if is_whitespace c then EmptyString else String c EmptyString
      | t => String c t
      end
  end.

Definition trim (s : string) : string := trimEnd (trimStart s).

(** [s.startsWith(p)] *)
Fixpoint startsWith (p s : string) : bool :=
  match p, s with
  | EmptyString, _ => true
  | String a p', String b s' => Ascii.eqb a b && startsWith p' s'
  | String _ _, EmptyString => false
  end.

(** [s.includes(p)] *)
Fixpoint includes (p s : string) : bool :=
  startsWith p s ||
  match s with
  | EmptyString => false
  | String _ s' => includes p s'
  end.

(** [s.split(sep)] for a separator of one code unit: the pieces between the
    occurrences of [sep]; the empty string splits into one empty piece. *)
Fixpoint split (sep : ascii) (s : string) : list string :=
  match s with
  | EmptyString => [EmptyString]
  | String c s' =>
      if Ascii.eqb c sep then EmptyString :: split sep s'
      else match split sep s' with
           | h :: t => String c h :: t
           | [] => [String c EmptyString]
           end
  end.

(** [pieces.join(sep)] *)
Fixpoint join (sep : string) (pieces : list string) : string :=
  match pieces with
  | [] => EmptyString
  | [p] => p
  | p :: rest => p ++ sep ++ join sep rest
  end.

End JsString.
Import JsString.

(** ** Regular expressions

    [net.isIP] and [isValidDomain] are anchored regular-expression tests.
    Expressions are matched by derivatives; intersection and complement
    express the look-arounds of the domain pattern. *)
Module Regex.

Inductive regex : Type :=
| Void
| Eps
| Class (ranges : list (nat * nat))
| Seq (a b : regex)
| Alt (a b : regex)
| Star (a : regex)
| And (a b : regex)
| Not (a : regex).

(** A character class is a list of inclusive code-unit ranges. *)
Definition in_class (ranges : list (nat * nat)) (c : ascii) : bool :=
  existsb (fun r => between (fst r) (snd r) c) ranges.

Fixpoint nullable (r : regex) : bool :=
  match r with
  | Void => false
  | Eps => true
  | Class _ => false
  | Seq a b => nullable a && nullable b
  | Alt a b => nullable a || nullable b
  | Star _ => true
  | And a b => nullable a && nullable b
  | Not a => negb (nullable a)
  end.

Fixpoint deriv (c : ascii) (r : regex) : regex :=
  match r with
  | Void => Void
  | Eps => Void
  | Class ranges => if in_class ranges c then Eps else Void
  | Seq a b =>
      if nullable a then Alt (Seq (deriv c a) b) (deriv c b)
      else Seq (deriv c a) b
  | Alt a b => Alt (deriv c a) (deriv c b)
  | Star a => Seq (deriv c a) (Star a)
  | And a b => And (deriv c a) (deriv c b)
  | Not a => Not (deriv c a)
  end.

(** [/^r$/.test(s)] *)
Fixpoint test (r : regex) (s : string) : bool :=
  match s with
  | EmptyString => nullable r
  | String c s' => test (deriv c r) s'
  end.

(** Derived forms. *)
Definition chr (c : ascii) : regex := Class [(code c, code c)].
Definition any : regex := Class [(0, 255)%nat].
Definition opt (r : regex) : regex := Alt Eps r.
Definition plus (r : regex) : regex := Seq r (Star r).

Fixpoint alts (rs : list regex) : regex :=
  match rs with
  | [] => Void
  | [r] => r
  | r :: rest => Alt r (alts rest)
  end.

(** [r{n}] *)
Fixpoint times (n : nat) (r : regex) : regex :=
  match n with
  | O => Eps
  | S n' => Seq r (times n' r)
  end.

(** [r{0,k}] *)
Fixpoint upto (k : nat) (r : regex) : regex :=
  match k with
  | O => Eps
  | S k' => opt (Seq r (upto k' r))
  end.

(** [r{n,m}] *)
Definition repeat_range (n m : nat) (r : regex) : regex :=
  Seq (times n r) (upto (m - n) r).

End Regex.
Import Regex.

(** ** Node's [net] module: [net.isIP]

    The patterns are those of Node's [lib/internal/net.js]. *)
Module net.

Definition digit : regex := Class [(48, 57)%nat].
Definition dot : regex := chr ".".
Definition colon : regex := chr ":".

(** [(?:25[0-5]|2[0-4]\d|1\d\d|[1-9]\d|\d)] *)
Definition v4Seg : regex :=
  alts [ Seq (chr "2") (Seq (chr "5") (Class [(48, 53)%nat]));
         Seq (chr "2") (Seq (Class [(48, 52)%nat]) digit);
         Seq (chr "1") (Seq digit digit);
         Seq (Class [(49, 57)%nat]) digit;
         digit ].

(** [(?:v4Seg\.){3}v4Seg] *)
Definition v4Str : regex := Seq (times 3 (Seq v4Seg dot)) v4Seg.

Definition IPv4Reg : regex := v4Str.

(** [(?:[0-9a-fA-F]{1,4})] *)
Definition hexdigit : regex := Class [(48, 57); (97, 102); (65, 70)]%nat.
Definition v6Seg : regex := repeat_range 1 4 hexdigit.

Definition segc (n : nat) : regex := times n (Seq v6Seg colon).
Definition cseg (n m : nat) : regex := repeat_range n m (Seq colon v6Seg).

(** The eight alternatives by the number of leading groups, then the
    optional zone index [(?:%[0-9a-zA-Z-.:]{1,})?]. *)
Definition IPv6Reg : regex :=
  Seq
    (alts
       [ Seq (segc 7) (alts [v6Seg; colon]);
         Seq (segc 6) (alts [v4Str; Seq colon v6Seg; colon]);
         Seq (segc 5) (alts [Seq colon v4Str; cseg 1 2; colon]);
         Seq (segc 4) (alts [Seq (cseg 0 1) (Seq colon v4Str); cseg 1 3; colon]);
         Seq (segc 3) (alts [Seq (cseg 0 2) (Seq colon v4Str); cseg 1 4; colon]);
         Seq (segc 2) (alts [Seq (cseg 0 3) (Seq colon v4Str); cseg 1 5; colon]);
         Seq (segc 1) (alts [Seq (cseg 0 4) (Seq colon v4Str); cseg 1 6; colon]);
         Seq colon (alts [Seq (cseg 0 5) (Seq colon v4Str); cseg 1 7; colon]) ])
    (opt (Seq (chr "%")
              (plus (Class [(48, 57); (97, 122); (65, 90); (45, 46); (58, 58)]%nat)))).

Definition isIPv4 (s : string) : bool := test IPv4Reg s.
Definition isIPv6 (s : string) : bool := test IPv6Reg s.

(** [net.isIP(s)]: 4, 6, or 0 when [s] is no IP literal. *)
Definition isIP (s : string) : Z :=
  if isIPv4 s then 4 else if isIPv6 s then 6 else 0.

End net.

(** ** JavaScript values and numbers *)
Module Js.

(** A number is a double: NaN, an integer, an infinity, or a fraction
    [m / 2^e], negated or not, with [m] odd. The two zeros are the one
    value [Num 0]: the program tells numbers apart with [===], [<], [Set]
    and [includes] only, and none of them separates -0 from 0. The
    conversions below give doubles in this one writing; an integer or a
    fraction that no double holds stands for no number of the language. *)
Inductive number : Type :=
| NaN
| Num (z : Z)
| Infinity (negative : bool)
| Fraction (negative : bool) (m e : positive).

Inductive value : Type :=
| VUndefined
| VNull
| VBool (b : bool)
| VNumber (n : number)
| VString (s : string)
| VArray (elems : list value)
| VObject (fields : list (string * value)).

(** *** Comparisons *)

(** A finite number as [n / 2^e]. *)
Definition numerator (x : number) : Z :=
  match x with
  | Num z => z
  | Fraction negative m _ => if negative then Zneg m else Zpos m
  | _ => 0
  end.

Definition binary_places (x : number) : Z :=
  match x with
  | Fraction _ _ e => Zpos e
  | _ => 0
  end.

(** The order of the numbers; NaN is not ordered. *)
Definition order (x y : number) : option comparison :=
  match x, y with
  | NaN, _ | _, NaN => None
  | Infinity a, Infinity b =>
      Some (if a then (if b then Eq else Lt) else (if b then Gt else Eq))
  | Infinity a, _ => Some (if a then Lt else Gt)
  | _, Infinity b => Some (if b then Gt else Lt)
  | _, _ =>
      Some (numerator x * 2 ^ binary_places y ?= numerator y * 2 ^ binary_places x)
  end.

(** [x === y] on numbers: NaN is equal to nothing. *)
Definition strict_eq (x y : number) : bool :=
  match x, y with
  | Num a, Num b => a =? b
  | Infinity a, Infinity b => Bool.eqb a b
  | Fraction a m e, Fraction b n f => Bool.eqb a b && (m =? n)%positive && (e =? f)%positive
  | _, _ => false
  end.

(** SameValueZero, the equality of [Set] and of [Array.prototype.includes]:
    NaN is equal to NaN. *)
Definition SameValueZero (x y : number) : bool :=
  match x, y with
  | NaN, NaN => true
  | _, _ => strict_eq x y
  end.

(** The relational operators: every comparison with NaN is false, and
    integers compare as integers. *)
Definition lt (x y : number) : bool :=
  match x, y with
  | Num a, Num b => a <? b
  | _, _ => match order x y with Some Lt => true | _ => false end
  end.
Definition gt (x y : number) : bool := lt y x.
Definition le (x y : number) : bool :=
  match x, y with
  | Num a, Num b => a <=? b
  | _, _ => match order x y with Some Lt | Some Eq => true | _ => false end
  end.
Definition ge (x y : number) : bool := le y x.

Definition isNaN (x : number) : bool :=
  match x with
  | NaN => true
  | _ => false
  end.

(** *** Rounding to a double

    The binary64 format, with the rounding of the Standard Library's
    specification of floating-point numbers. *)

Definition double_prec : Z := 53.
Definition double_emax : Z := 1024.

(** [m / 2^e], negated or not, in its one writing. *)
Fixpoint dyadic (negative : bool) (m : positive) (e : nat) : number :=
  match e with
  | O => Num (if negative then Zneg m else Zpos m)
  | S e' =>
      match m with
      | xO m' => dyadic negative m' e'
      | _ => Fraction negative m (Pos.of_nat e)
      end
  end.

(** The number that a float of the specification stands for. *)
Definition of_spec_float (f : spec_float) : number :=
  match f with
  | S754_zero _ => Num 0
  | S754_infinity negative => Infinity negative
  | S754_nan => NaN
  | S754_finite negative m e =>
      match e with
      | Zneg p => dyadic negative m (Pos.to_nat p)
      | _ => Num ((if negative then Zneg m else Zpos m) * 2 ^ e)
      end
  end.

(** The double nearest to [d * 10^e], ties to even, negated or not; [d] has
    [digits] decimal digits. Beyond the two bounds the exponent alone
    decides the result. *)
Definition round_decimal (negative : bool) (d : positive) (digits : Z) (e : Z) : number :=
  if 310 <=? digits + e then Infinity negative
  else if digits + e <? -330 then Num 0
  else
    of_spec_float
      match e with
      | Zneg k =>
          SFdiv double_prec double_emax (S754_finite negative d 0)
                          (S754_finite false (10 ^ k)%positive 0)
      | _ => binary_round double_prec double_emax negative (d * Z.to_pos (10 ^ e))%positive 0
      end.

(** The double nearest to an integer. *)
Definition round_integer (z : Z) : number :=
  match z with
  | Z0 => Num 0
  | Zpos m => of_spec_float (binary_round double_prec double_emax false m 0)
  | Zneg m => of_spec_float (binary_round double_prec double_emax true m 0)
  end.

(** *** Strings to numbers *)

Definition digit_value (c : ascii) : option Z :=
  if between 48 57 c then Some (Z.of_nat (code c) - 48) else None.

Fixpoint digits_value (acc : Z) (s : string) : option Z :=
  match s with
  | EmptyString => Some acc
  | String c s' =>
      match digit_value c with
      | Some d => digits_value (10 * acc + d) s'
      | None => None
      end
  end.

(** The digit of a code unit in a radix up to 16. *)
Definition radix_digit (radix : Z) (c : ascii) : option Z :=
  let v := if between 48 57 c then Some (Z.of_nat (code c) - 48)
           else if between 97 102 c then Some (Z.of_nat (code c) - 87)
           else if between 65 70 c then Some (Z.of_nat (code c) - 55)
           else None in
  match v with
  | Some d => if d <? radix then Some d else None
  | None => None
  end.

Fixpoint radix_value (radix : Z) (acc : Z) (s : string) : option Z :=
  match s with
  | EmptyString => Some acc
  | String c s' =>
      match radix_digit radix c with
      | Some d => radix_value radix (radix * acc + d) s'
      | None => None
      end
  end.

(** The longest run of decimal digits at the start, and what follows it. *)
Fixpoint span_digits (s : string) : string * string :=
  match s with
  | EmptyString => (EmptyString, EmptyString)
  | String c s' =>
      if between 48 57 c then
        let (ds, rest) := span_digits s' in (String c ds, rest)
      else (EmptyString, s)
  end.

Fixpoint strip_zeros (s : string) : string :=
  match s with
  | String "0" s' => strip_zeros s'
  | _ => s
  end.

(** [ExponentPart], or nothing: the exponent, if the text is one. *)
Definition ExponentPart (s : string) : option Z :=
  match s with
  | EmptyString => Some 0
  | String c s' =>
      if Ascii.eqb c "e" || Ascii.eqb c "E" then
        match s' with
        | String "+" (String _ _ as ds) => digits_value 0 ds
        | String "-" (String _ _ as ds) => option_map Z.opp (digits_value 0 ds)
        | String _ _ => digits_value 0 s'
        | EmptyString => None
        end
      else None
  end.

(** [StrUnsignedDecimalLiteral] *)
Definition StrUnsignedDecimalLiteral (negative : bool) (s : string) : number :=
  if String.eqb s "Infinity" then Infinity negative
  else
    let (int_part, after_int) := span_digits s in
    let (frac_part, after_frac) :=
      match after_int with
      | String "." s' => span_digits s'
      | _ => (EmptyString, after_int)
      end in
    match int_part, frac_part with
    | EmptyString, EmptyString => NaN
    | _, _ =>
        match ExponentPart after_frac with
        | Some e =>
            let significant := strip_zeros (int_part ++ frac_part) in
            match digits_value 0 significant with
            | Some (Zpos d) =>
                round_decimal negative d (Z.of_nat (String.length significant))
                  (e - Z.of_nat (String.length frac_part))
            | _ => Num 0
            end
        | None => NaN
        end
    end.

(** [NonDecimalIntegerLiteral], after its prefix. *)
Definition NonDecimalIntegerLiteral (radix : Z) (digits : string) : number :=
  match digits with
  | EmptyString => NaN
  | _ =>
      match radix_value radix 0 digits with
      | Some v => round_integer v
      | None => NaN
      end
  end.

(** The string-to-number conversion, [StringToNumber] of the language
    specification: white space is stripped, the empty string is 0, and the
    rest is a decimal literal with an optional sign, or [Infinity] with an
    optional sign, or a binary, octal or hexadecimal integer without a
    sign; anything else is NaN. The value is rounded to the nearest
    double. *)
Definition StringToNumber (s : string) : number :=
  match trim s with
  | EmptyString => Num 0
  | String "0" (String c digits) as literal =>
      if Ascii.eqb c "x" || Ascii.eqb c "X" then NonDecimalIntegerLiteral 16 digits
      else if Ascii.eqb c "o" || Ascii.eqb c "O" then NonDecimalIntegerLiteral 8 digits
      else if Ascii.eqb c "b" || Ascii.eqb c "B" then NonDecimalIntegerLiteral 2 digits
      else StrUnsignedDecimalLiteral false literal
  | String "-" rest => StrUnsignedDecimalLiteral true rest
  | String "+" rest => StrUnsignedDecimalLiteral false rest
  | literal => StrUnsignedDecimalLiteral false literal
  end.

(** *** Numbers to strings *)

Definition decimal_digits (z : Z) : string := NilZero.string_of_int (Z.to_int z).

Fixpoint zeros (n : nat) : string :=
  match n with
  | O => EmptyString
  | S n' => String "0" (zeros n')
  end.

(** [10^n <= p / q] *)
Definition reaches_pow10 (p q : Z) (n : Z) : bool :=
  match n with
  | Zneg k => q <=? p * 10 ^ Zpos k
  | _ => q * 10 ^ n <=? p
  end.

(** The [n] with [10^(n-1) <= p / q < 10^n], searched upwards from [n]. *)
Fixpoint decimal_exponent (fuel : nat) (p q : Z) (n : Z) : Z :=
  match fuel with
  | O => n
  | S fuel' => if reaches_pow10 p q n then decimal_exponent fuel' p q (n + 1) else n
  end.

(** The decimal with the fewest digits that reads back as [x = p / q]: its
    digits [s] and the [n] with [s * 10^(n - k)] its value, [k] the number of
    digits, tried for [k] digits and more; of two candidates the one nearer
    to [x] is taken. Seventeen digits always suffice for a double. *)
Fixpoint shortest (fuel : nat) (x : number) (p q : Z) (n : Z) (k : Z) : Z * Z :=
  match fuel with
  | O => (p / q, n)
  | S fuel' =>
      let scale := k - n in
      let num := match scale with Zneg _ => p | _ => p * 10 ^ scale end in
      let den := match scale with Zneg j => q * 10 ^ Zpos j | _ => q end in
      let low := num / den in
      let high := low + 1 in
      let reads_back (s : Z) :=
        match s with
        | Zpos d => strict_eq (round_decimal false d k (n - k)) x
        | _ => false
        end in
      let low_ok := reads_back low in
      let high_ok := reads_back high in
      let twice := 2 * (num mod den) in
      let take_high :=
        high_ok && (negb low_ok || (den <? twice) || ((den =? twice) && Z.odd low)) in
      if take_high then
        if high =? 10 ^ k then (10 ^ (k - 1), n + 1) else (high, n)
      else if low_ok then (low, n)
      else shortest fuel' x p q n (k + 1)
  end.

Fixpoint string_take (n : nat) (s : string) : string :=
  match n, s with
  | S n', String c s' => String c (string_take n' s')
  | _, _ => EmptyString
  end.

Fixpoint string_drop (n : nat) (s : string) : string :=
  match n, s with
  | S n', String _ s' => string_drop n' s'
  | _, _ => s
  end.

(** [Number::toString] in radix 10 on a positive finite number [p / q]. *)
Definition positive_to_string (x : number) (p q : Z) : string :=
  let estimate := (Z.log2 p - Z.log2 q) * 1233 / 4096 in
  let n0 := decimal_exponent 8 p q (estimate - 2) in
  let (s, n) := shortest 17 x p q n0 1 in
  let digits := decimal_digits s in
  let k := Z.of_nat (String.length digits) in
  if (-5 <=? n) && (n <=? 21) then
    if k <=? n then digits ++ zeros (Z.to_nat (n - k))
    else if 0 <? n then string_take (Z.to_nat n) digits ++ "." ++ string_drop (Z.to_nat n) digits
    else "0." ++ zeros (Z.to_nat (- n)) ++ digits
  else
    let e := n - 1 in
    let exponent := (if e <? 0 then "-" else "+") ++ decimal_digits (Z.abs e) in
    if k =? 1 then digits ++ "e" ++ exponent
    else string_take 1 digits ++ "." ++ string_drop 1 digits ++ "e" ++ exponent.

Definition magnitude (x : number) : number :=
  match x with
  | Num z => Num (Z.abs z)
  | Fraction _ m e => Fraction false m e
  | Infinity _ => Infinity false
  | NaN => NaN
  end.

Definition number_to_string (x : number) : string :=
  match x with
  | NaN => "NaN"
  | Infinity negative => if negative then "-Infinity" else "Infinity"
  | Num 0 => "0"
  | _ =>
      (if numerator x <? 0 then "-" else "") ++
      positive_to_string (magnitude x) (Z.abs (numerator x)) (2 ^ binary_places x)
  end.

(** [String(v)]: an array joins its elements with commas, [null] and
    [undefined] elements printing as nothing. *)
Fixpoint ToString (v : value) : string :=
  match v with
  | VUndefined => "undefined"
  | VNull => "null"
  | VBool true => "true"
  | VBool false => "false"
  | VNumber n => number_to_string n
  | VString s => s
  | VArray elems =>
      join ","
        (map (fun e => match e with
                       | VUndefined | VNull => EmptyString
                       | _ => ToString e
                       end) elems)
  | VObject _ => "[object Object]"
  end.

(** [Number(v)] *)
Definition Number (v : value) : number :=
  match v with
  | VUndefined => NaN
  | VNull => Num 0
  | VBool true => Num 1
  | VBool false => Num 0
  | VNumber n => n
  | VString s => StringToNumber s
  | VArray _ | VObject _ => StringToNumber (ToString v)
  end.

(** [obj.key] on an object whose keys are distinct: [undefined] when the key
    is absent. *)
Fixpoint get_field (key : string) (fields : list (string * value)) : value :=
  match fields with
  | [] => VUndefined
  | (k, v) :: rest => if String.eqb k key then v else get_field key rest
  end.

(** [Array.from(new Set(xs))]: the set keeps insertion order, and adding a
    member that is already there changes nothing. *)
Definition Set_add (s : list number) (x : number) : list number :=
  if existsb (SameValueZero x) s then s else s ++ [x].

Definition Set_of (xs : list number) : list number := fold_left Set_add xs [].

(** [xs.includes(x)] *)
Definition Array_includes (xs : list number) (x : number) : bool :=
  existsb (SameValueZero x) xs.

(** How an awaited promise ends. *)
Inductive promise (A : Type) : Type :=
| Pending
| Fulfilled (a : A)
| Rejected (message : string).
Arguments Pending {A}.
Arguments Fulfilled {A} a.
Arguments Rejected {A} message.

#[global] Instance promise_bind : MBind promise :=
  fun A B (k : A -> promise B) (p : promise A) =>
    match p with
    | Pending => Pending
    | Fulfilled a => k a
    | Rejected m => Rejected m
    end.

(** A synchronous step inside an async function. *)
Definition settled {A : Type} (r : result A) : promise A :=
  match r with
  | Ok a => Fulfilled a
  | Throw m => Rejected m
  end.

End Js.
Import Js.

(** ** The program: [backend/server.js] *)

Definition ALLOWED_PORTS : list number :=
  map Num [21; 22; 25; 53; 80; 110; 143; 443; 465; 587; 993; 995; 8080].
Definition MAX_PORTS : nat := 20.
Definition MIN_TIMEOUT_MS : Z := 1000.
Definition RATE_LIMIT_WINDOW_MS : Z := 10000.

(** *** Address classification

    The argument is a string or [undefined] ([None]); a method call on
    [undefined] throws a [TypeError]. *)

Definition truthy (address : option string) : bool :=
  match address with
  | Some (String _ _) => true
  | _ => false
  end.

Definition net_isIP (address : option string) : Z :=
  match address with
  | Some s => net.isIP s
  | None => 0
  end.

Definition isPrivateIpv4 (address : option string) : result bool :=
  match address with
  | None => Throw "Cannot read properties of undefined (reading 'split')"
  | Some address =>
      let octets := map (fun piece => Number (VString piece)) (split "." address) in
      if negb (Nat.eqb (length octets) 4)
         || existsb (fun o => isNaN o || lt o (Num 0) || gt o (Num 255)) octets
      then Ok true
      else
        (* const [a, b] = octets *)
        let a := nth 0 octets NaN in
        let b := nth 1 octets NaN in
        if strict_eq a (Num 10) then Ok true
        else if strict_eq a (Num 127) then Ok true
        else if strict_eq a (Num 0) then Ok true
        else if strict_eq a (Num 169) && strict_eq b (Num 254) then Ok true
        else if strict_eq a (Num 172) && ge b (Num 16) && le b (Num 31) then Ok true
        else if strict_eq a (Num 192) && strict_eq b (Num 168) then Ok true
        else Ok false
  end.

Definition isPrivateIpv6 (address : option string) : result bool :=
  match address with
  | None => Throw "Cannot read properties of undefined (reading 'toLowerCase')"
  | Some address =>
      let normalized := toLowerCase address in
      if String.eqb normalized "::1" then Ok true
      else if startsWith "fe80:" normalized then Ok true
      else if startsWith "fc" normalized || startsWith "fd" normalized then Ok true
      else Ok false
  end.

Definition isPrivateIp (address : option string) : result bool :=
  if negb (truthy address) then Ok true
  else if net_isIP address =? 4 then isPrivateIpv4 address
  else if net_isIP address =? 6 then isPrivateIpv6 address
  else Ok true.

(** *** Domain names

    [/^(?!-)[A-Za-z0-9-]{1,63}(?<!-)(\.(?!-)[A-Za-z0-9-]{1,63}(?<!-))+$/]:
    the two look-arounds of a label say that its first and its last
    character are not hyphens. *)
Definition label_char : regex := Class [(65, 90); (97, 122); (48, 57); (45, 45)]%nat.

Definition label : regex :=
  And (repeat_range 1 63 label_char)
      (And (Not (Seq (chr "-") (Star any)))
           (Not (Seq (Star any) (chr "-")))).

Definition domainRegex : regex :=
  Seq label (plus (Seq (chr ".") label)).

Definition isValidDomain (target : string) : bool := test domainRegex target.

(** *** Ports *)

Definition dedupePorts (ports : list number) : list number := Set_of ports.

Definition validatePorts (ports : value) : result (list number) :=
  match ports with
  | VArray elems =>
      let uniquePorts := dedupePorts (map Number elems) in
      if Nat.eqb (length uniquePorts) 0 then
        Throw "At least one port is required"
      else if Nat.ltb MAX_PORTS (length uniquePorts) then
        Throw "Cannot scan more than 20 ports"
      else
        let invalid := List.filter (fun p => negb (Array_includes ALLOWED_PORTS p)) uniquePorts in
        if Nat.ltb 0 (length invalid) then
          Throw "Ports must be in the allowed list"
        else Ok uniquePorts
  | _ => Throw "Ports must be an array"
  end.

(** *** Targets *)

Record ResolvedTarget : Type := {
  hostname : string;
  address : string
}.

(** An entry of [dns.lookup(name, { all: true })]. *)
Record LookupAddress : Type := {
  entry_address : string;
  family : Z
}.

(** [addresses.find((entry) => !isPrivateIp(entry.address))] *)
Fixpoint find_public (addresses : list LookupAddress) : result (option LookupAddress) :=
  match addresses with
  | [] => Ok None
  | entry :: rest =>
      private ← isPrivateIp (Some (entry_address entry));
      if negb private then Ok (Some entry) else find_public rest
  end.

(** [dns_lookup] is the resolver: the addresses of a name, or the rejection
    of the lookup. *)
Definition resolveTarget (dns_lookup : string -> result (list LookupAddress))
    (target : value) : result ResolvedTarget :=
  match target with
  | VString (String _ _ as target) =>
      let trimmed := trim target in
      if String.eqb (toLowerCase trimmed) "localhost" then
        Throw "Localhost is not allowed"
      else if negb (net.isIP trimmed =? 0) then
        private ← isPrivateIp (Some trimmed);
        if (private : bool) then Throw "Private IPs are not allowed"
        else Ok {| hostname := trimmed; address := trimmed |}
      else if negb (isValidDomain trimmed) then
        Throw "Invalid domain name"
      else
        addresses ← dns_lookup trimmed;
        publicAddress ← find_public addresses;
        match publicAddress with
        | None => Throw "Target resolves to a private IP"
        | Some entry => Ok {| hostname := trimmed; address := entry_address entry |}
        end
  | _ => Throw "Target is required"
  end.

(** *** Rate limiting

    [rateLimitMap] is threaded through; [now] is the reading of
    [Date.now()]. *)

(** [x || 0] on a map lookup. *)
Definition or_zero (x : option Z) : Z :=
  match x with
  | Some t => if t =? 0 then 0 else t
  | None => 0
  end.

Definition enforceRateLimit (now : Z) (clientId : string)
    (rateLimitMap : gmap string Z) : bool * gmap string Z :=
  let last := or_zero (rateLimitMap !! clientId) in
  if now - last <? RATE_LIMIT_WINDOW_MS then (false, rateLimitMap)
  else (true, <[clientId := now]> rateLimitMap).

(** *** The TCP probe *)

Inductive port_status : Type := open | closed | filtered.

Record PortResult : Type := {
  port : number;
  status : port_status;
  latency_ms : option Z
}.

(** The error object of an ['error'] event, with its [code]. *)
Record SocketError : Type := {
  err_code : option string
}.

(** What a socket emits. A ['connect'] event carries the reading of
    [Date.now()] in its handler. *)
Inductive socket_event : Type :=
| ev_connect (now : Z)
| ev_timeout
| ev_error (err : option SocketError).

(** What the network does with [socket.connect({ host, port })]: the reading
    of [Date.now()] when the probe starts, the milliseconds for which the
    network stays quiet after the call, and the events it then causes on
    the socket, in order; a network that never answers causes none. *)
Record connection : Type := {
  started : Z;
  quiet : Z;
  events : list socket_event
}.

(** The socket, the [resolved] flag, the three [once] listeners and the
    promise of one probe. *)
Record probe : Type := {
  socket_timeout : option Z;
  destroyed : bool;
  resolved : bool;
  once_connect : bool;
  once_timeout : bool;
  once_error : bool;
  outcome : promise PortResult
}.

(** [resolve(r)]: only the first call settles the promise. *)
Definition resolve (r : PortResult) (p : probe) : probe :=
  match outcome p with
  | Pending =>
      {| socket_timeout := socket_timeout p; destroyed := destroyed p;
         resolved := resolved p; once_connect := once_connect p;
         once_timeout := once_timeout p; once_error := once_error p;
         outcome := Fulfilled r |}
  | _ => p
  end.

Definition closeSocket (p : probe) : probe :=
  if negb (resolved p) then
    {| socket_timeout := socket_timeout p; destroyed := true;
       resolved := true; once_connect := once_connect p;
       once_timeout := once_timeout p; once_error := once_error p;
       outcome := outcome p |}
  else p.

(** [err && err.code === 'ECONNREFUSED'] *)
Definition is_refused (err : option SocketError) : bool :=
  match err with
  | Some e =>
      match err_code e with
      | Some c => String.eqb c "ECONNREFUSED"
      | None => false
      end
  | None => false
  end.

(** One emitted event: a [once] listener is removed, then run. *)
Definition emit (start : Z) (port : number) (p : probe) (ev : socket_event) : probe :=
  match ev with
  | ev_connect now =>
      if once_connect p then
        let p := {| socket_timeout := socket_timeout p; destroyed := destroyed p;
                    resolved := resolved p; once_connect := false;
                    once_timeout := once_timeout p; once_error := once_error p;
                    outcome := outcome p |} in
        let latency := now - start in
        closeSocket
          (resolve {| port := port; status := open; latency_ms := Some latency |} p)
      else p
  | ev_timeout =>
      if once_timeout p then
        let p := {| socket_timeout := socket_timeout p; destroyed := destroyed p;
                    resolved := resolved p; once_connect := once_connect p;
                    once_timeout := false; once_error := once_error p;
                    outcome := outcome p |} in
        closeSocket
          (resolve {| port := port; status := filtered; latency_ms := None |} p)
      else p
  | ev_error err =>
      if once_error p then
        let p := {| socket_timeout := socket_timeout p; destroyed := destroyed p;
                    resolved := resolved p; once_connect := once_connect p;
                    once_timeout := once_timeout p; once_error := false;
                    outcome := outcome p |} in
        closeSocket
          (if is_refused err
           then resolve {| port := port; status := closed; latency_ms := None |} p
           else resolve {| port := port; status := filtered; latency_ms := None |} p)
      else p
  end.

(** The longest duration of a timer, [TIMEOUT_MAX] of Node's timers. *)
Definition TIMEOUT_MAX : Z := 2147483647.

(** [getTimerDuration] of Node's timers, which [socket.setTimeout] applies
    to its argument, on a duration that is not negative: a duration beyond
    [TIMEOUT_MAX] is cut down to it, with a warning. *)
Definition getTimerDuration (msecs : Z) : Z :=
  if TIMEOUT_MAX <? msecs then TIMEOUT_MAX else msecs.

(** The idle timer of a socket: with a timeout of [msecs] set, the socket
    emits ['timeout'] once nothing has happened on it for that long. The
    events that reach the listeners are the timer's, when the network stays
    quiet for [msecs] or for ever, and then the network's. *)
Definition socket_events (socket : probe) (conn : connection) : list socket_event :=
  match socket_timeout socket, events conn with
  | Some _, [] => [ev_timeout]
  | Some msecs, evs => if msecs <=? quiet conn then ev_timeout :: evs else evs
  | None, evs => evs
  end.

(** [validatePort] of Node's validators on a number, which [socket.connect]
    applies to [options.port]: [+port === (+port >>> 0) && port <= 0xFFFF]. *)
Definition validatePort (port : number) : bool :=
  match port with
  | Num z => (0 <=? z) && (z <=? 65535)
  | _ => false
  end.

(** The message of the [RangeError] that [socket.connect] throws
    otherwise. *)
Definition ERR_SOCKET_BAD_PORT (port : number) : string :=
  "Port should be >= 0 and < 65536. Received type number ("
  ++ number_to_string port ++ ").".

(** An error thrown inside the executor rejects the promise. *)
Definition reject (message : string) (p : probe) : probe :=
  match outcome p with
  | Pending =>
      {| socket_timeout := socket_timeout p; destroyed := destroyed p;
         resolved := resolved p; once_connect := once_connect p;
         once_timeout := once_timeout p; once_error := once_error p;
         outcome := Rejected message |}
  | _ => p
  end.

(** [timeoutMs] is [None] when the argument is omitted. The timeout is set
    and the listeners are registered before the socket connects. When
    [socket.connect] refuses the port, no connection is attempted and the
    idle timer is all that is left to happen on the socket. *)
Definition performPortCheck (connect : string -> number -> connection)
    (host : string) (port : number) (timeoutMs : option Z) : probe :=
  let timeoutMs := match timeoutMs with Some t => t | None => MIN_TIMEOUT_MS end in
  let conn := connect host port in
  let start := started conn in
  let socket :=
    {| socket_timeout := Some (getTimerDuration (Z.max timeoutMs MIN_TIMEOUT_MS));
       destroyed := false; resolved := false;
       once_connect := true; once_timeout := true; once_error := true;
       outcome := Pending |} in
  if validatePort port then
    fold_left (emit start port) (socket_events socket conn) socket
  else
    fold_left (emit start port) [ev_timeout] (reject (ERR_SOCKET_BAD_PORT port) socket).

(** *** The request handler *)

Record ScanResult : Type := {
  scan_target : string;
  scan_ip : string;
  results : list PortResult;
  timestamp : string
}.

(** The body written to the response, before [JSON.stringify]. *)
Inductive response_body : Type :=
| ErrorBody (error : string)
| ScanBody (scan : ScanResult).

Record response : Type := {
  statusCode : Z;
  headers : list (string * string);
  body : response_body
}.

Record request : Type := {
  remoteAddress : option string;
  request_body : string
}.

(** What the handler reads from outside the process. *)
Record world : Type := {
  Date_now : Z;
  JSON_parse : string -> result value;
  dns_lookup : string -> result (list LookupAddress);
  socket_connect : string -> number -> connection;
  toISOString : string
}.

Definition corsHeaders (extra : list (string * string)) : list (string * string) :=
  [ ("Access-Control-Allow-Origin", "*");
    ("Access-Control-Allow-Methods", "POST, OPTIONS");
    ("Access-Control-Allow-Headers", "Content-Type") ] ++ extra.

(** [const { target, ports } = payload] *)
Definition destructure (payload : value) : result (value * value) :=
  match payload with
  | VUndefined => Throw "Cannot destructure property 'target' of 'payload' as it is undefined."
  | VNull => Throw "Cannot destructure property 'target' of 'payload' as it is null."
  | VObject fields => Ok (get_field "target" fields, get_field "ports" fields)
  | _ => Ok (VUndefined, VUndefined)
  end.

(** The [for] loop over the validated ports: each probe is awaited before
    the next one starts, and its result is pushed. *)
Fixpoint scan_ports (w : world) (address : string) (validatedPorts : list number)
    (results : list PortResult) : promise (list PortResult) :=
  match validatedPorts with
  | [] => Fulfilled results
  | port :: rest =>
      result ← outcome (performPortCheck (socket_connect w) address port None);
      scan_ports w address rest (results ++ [result])
  end.

(** [request.socket.remoteAddress || 'unknown'] *)
Definition client_id (req : request) : string :=
  match remoteAddress req with
  | Some (String _ _ as a) => a
  | _ => "unknown"
  end.

(** [body || '{}'] *)
Definition body_text (req : request) : string :=
  match request_body req with
  | EmptyString => "{}"
  | b => b
  end.

(** The [try] block after admission. *)
Definition scan_admitted (w : world) (req : request) : promise ScanResult :=
  payload ← settled (JSON_parse w (body_text req));
  tp ← settled (destructure payload);
  validatedPorts ← settled (validatePorts (snd tp));
  rt ← settled (resolveTarget (dns_lookup w) (fst tp));
  results ← scan_ports w (address rt) validatedPorts [];
  Fulfilled {| scan_target := hostname rt; scan_ip := address rt;
               results := results; timestamp := toISOString w |}.

Definition too_many_requests : response :=
  {| statusCode := 429; headers := corsHeaders [];
     body := ErrorBody "Too many requests: wait 10 seconds between scans." |}.

(** The handler of the ['end'] event: the response it writes, if any, and
    the rate-limit map it leaves. *)
Definition handleScan (w : world) (req : request) (rateLimitMap : gmap string Z)
    : option response * gmap string Z :=
  let clientId := client_id req in
  let (admitted, rateLimitMap) := enforceRateLimit (Date_now w) clientId rateLimitMap in
  if negb admitted then (Some too_many_requests, rateLimitMap)
  else
    match scan_admitted w req with
    | Fulfilled scan =>
        (Some {| statusCode := 200;
                 headers := corsHeaders [("Content-Type", "application/json")];
                 body := ScanBody scan |},
         rateLimitMap)
    | Rejected message =>
        (Some {| statusCode := if includes "rate" message then 429 else 400;
                 headers := corsHeaders [("Content-Type", "application/json")];
                 body := ErrorBody (match message with
                                    | EmptyString => "Invalid request"
                                    | m => m
                                    end) |},
         rateLimitMap)
    | Pending => (None, rateLimitMap)
    end.

(** ** The request listener of [http.createServer] *)

Record http_request : Type := {
  method : string;
  url : string;
  incoming : request
}.

(** What is written to the response: [res.end()] without an argument
    writes no body. *)
Record reply : Type := {
  reply_status : Z;
  reply_headers : list (string * string);
  reply_body : option response_body
}.

Definition reply_of (r : response) : reply :=
  {| reply_status := statusCode r; reply_headers := headers r;
     reply_body := Some (body r) |}.

Definition server (w : world) (req : http_request) (rateLimitMap : gmap string Z)
    : option reply * gmap string Z :=
  if String.eqb (method req) "OPTIONS" then
    (Some {| reply_status := 204; reply_headers := corsHeaders [];
             reply_body := None |},
     rateLimitMap)
  else if String.eqb (url req) "/scan" && String.eqb (method req) "POST" then
    let (r, rateLimitMap) := handleScan w (incoming req) rateLimitMap in
    (option_map reply_of r, rateLimitMap)
  else
    (Some {| reply_status := 404;
             reply_headers := corsHeaders [("Content-Type", "application/json")];
             reply_body := Some (ErrorBody "Not found") |},
     rateLimitMap).

(** ** The client: the [App] component

    The state updates of the component are functions of the previous
    state. *)
Module App.

Definition ALLOWED_PORTS : list number :=
  map Num [21; 22; 25; 53; 80; 110; 143; 443; 465; 587; 993; 995; 8080].

(** [useState<number[]>([80, 443])] *)
Definition initial_selectedPorts : list number := [Num 80; Num 443].

Definition togglePort (port : number) (prev : list number) : list number :=
  if Array_includes prev port then
    List.filter (fun p => negb (strict_eq p port)) prev
  else prev ++ [port].

(** The entries that [saveHistory] stores, before [JSON.stringify]. *)
Definition saveHistory {A : Type} (entries : list A) : list A :=
  firstn 5 entries.

(** [[data, ...history].slice(0, 5)] *)
Definition updatedHistory {A : Type} (data : A) (history : list A) : list A :=
  firstn 5 (data :: history).

(** What [handleScan] does with the form: an error to show, or the body it
    posts to [/scan], before [JSON.stringify]. *)
Inductive submission : Type :=
| ShowError (message : string)
| Post (body : value).

Definition handleScan (target : string) (selectedPorts : list number) : submission :=
  if String.eqb (trim target) "" then
    ShowError "Please enter a domain or public IP."
  else if Nat.eqb (length selectedPorts) 0 then
    ShowError "Select at least one port to scan."
  else
    Post (VObject [ ("target", VString (trim target));
                    ("ports", VArray (map VNumber selectedPorts)) ]).

End App.

(** * Reference definitions

    The notions the properties are stated with. *)

(** Deduplication that keeps first occurrences in order: the head stays and
    its later copies go. *)
Fixpoint first_occurrences (xs : list number) : list number :=
  match xs with
  | [] => []
  | x :: rest =>
      x :: List.filter (fun y => negb (SameValueZero x y)) (first_occurrences rest)
  end.


(** The language of a regular expression. *)
Inductive star (L : string -> Prop) : string -> Prop :=
| star_nil : star L EmptyString
| star_app (u v : string) : L u -> star L v -> star L (u ++ v).

Fixpoint lang (r : regex) (s : string) : Prop :=
  match r with
  | Void => False
  | Eps => s = EmptyString
  | Class ranges => exists c, s = String c EmptyString /\ in_class ranges c = true
  | Seq a b => exists u v, s = u ++ v /\ lang a u /\ lang b v
  | Alt a b => lang a s \/ lang b s
  | Star a => star (lang a) s
  | And a b => lang a s /\ lang b s
  | Not a => ~ lang a s
  end.

(** The 256 code units, and the members of a finite language: every string
    of the language of [r] is in [enum r] when that is defined. *)
Definition all_chars : list ascii := map ascii_of_nat (seq 0 256).

Fixpoint enum (r : regex) : option (list string) :=
  match r with
  | Void => Some []
  | Eps => Some [EmptyString]
  | Class ranges =>
      Some (map (fun c => String c EmptyString) (List.filter (in_class ranges) all_chars))
  | Seq a b =>
      match enum a, enum b with
      | Some la, Some lb => Some (flat_map (fun u => map (String.append u) lb) la)
      | _, _ => None
      end
  | Alt a b =>
      match enum a, enum b with
      | Some la, Some lb => Some (la ++ lb)%list
      | _, _ => None
      end
  | _ => None
  end.

(** ** Probes *)

(** What the handler of the first event resolves the promise with. *)
Definition first_result (start : Z) (p : number) (ev : socket_event) : PortResult :=
  match ev with
  | ev_connect now => {| port := p; status := open; latency_ms := Some (now - start) |}
  | ev_timeout => {| port := p; status := filtered; latency_ms := None |}
  | ev_error err =>
      {| port := p; status := if is_refused err then closed else filtered;
         latency_ms := None |}
  end.

(** The promise of a probe for port [p] is pending or fulfilled with a
    result for that port: no handler rejects it. *)
Definition pending_or_for_port (p : number) (st : probe) : Prop :=
  outcome st = Pending \/ exists r, outcome st = Fulfilled r /\ port r = p.

(** The first event on a socket whose idle timer is set to [msecs]: the
    timer's, when the network stays quiet for that long or for ever, and
    otherwise the first of the network's. *)
Definition first_event (msecs : Z) (conn : connection) : socket_event :=
  match events conn with
  | [] => ev_timeout
  | ev :: _ => if msecs <=? quiet conn then ev_timeout else ev
  end.

(** ** IPv4 addresses and blocks *)

(** The address [a.b.c.d] as a 32-bit integer. *)
Definition ipv4_value (a b c d : Z) : Z :=
  a * 2 ^ 24 + b * 2 ^ 16 + c * 2 ^ 8 + d.

(** Membership of the block [base/prefix]: the leading [prefix] bits agree. *)
Definition in_cidr (addr base prefix : Z) : bool :=
  Z.shiftr addr (32 - prefix) =? Z.shiftr base (32 - prefix).

(** 10.0.0.0/8, 127.0.0.0/8, 0.0.0.0/8, 169.254.0.0/16, 172.16.0.0/12 and
    192.168.0.0/16. *)
Definition private_blocks : list (Z * Z) :=
  [ (ipv4_value 10 0 0 0, 8); (ipv4_value 127 0 0 0, 8); (ipv4_value 0 0 0 0, 8);
    (ipv4_value 169 254 0 0, 16); (ipv4_value 172 16 0 0, 12);
    (ipv4_value 192 168 0 0, 16) ].

Definition in_private_block (addr : Z) : bool :=
  existsb (fun block => in_cidr addr (fst block) (snd block)) private_blocks.

(** The decimal writing of an integer, and the dotted-decimal literal of
    four octets. *)
Definition decimal (z : Z) : string := NilZero.string_of_int (Z.to_int z).

Definition dotted (a b c d : Z) : string :=
  decimal a ++ "." ++ decimal b ++ "." ++ decimal c ++ "." ++ decimal d.

Fixpoint contains_char (c : ascii) (s : string) : bool :=
  match s with
  | EmptyString => false
  | String x s' => Ascii.eqb x c || contains_char c s'
  end.

(** A component of a dotted literal: no dot, and the decimal writing of the
    octet that [Number] reads from it. *)
Definition octet_ok (t : string) : bool :=
  negb (contains_char "." t) &&
  match Number (VString t) with
  | Num n => (0 <=? n) && (n <=? 255) && String.eqb t (decimal n)
  | _ => false
  end.

(** The test of [isPrivateIpv4] on the first two octets. *)
Definition private_octets (a b : Z) : bool :=
  (a =? 10) || (a =? 127) || (a =? 0) || ((a =? 169) && (b =? 254))
  || ((a =? 172) && (16 <=? b) && (b <=? 31)) || ((a =? 192) && (b =? 168)).

(** ** Case-insensitive prefixes *)

Definition ascii_lower (c : ascii) : ascii :=
  if between 65 90 c then ascii_of_nat (code c + 32) else c.

(** The same character up to the case of an ASCII letter. *)
Definition same_char_ci (a b : ascii) : bool :=
  Ascii.eqb (ascii_lower a) (ascii_lower b).

(** [s] begins with [p], case-insensitively. *)
Fixpoint prefix_ci (p s : string) : bool :=
  match p, s with
  | EmptyString, _ => true
  | String a p', String b s' => same_char_ci a b && prefix_ci p' s'
  | String _ _, EmptyString => false
  end.

(** A pattern character that lowering leaves alone, and one that has no
    other case either. *)
Definition plain_char (a : ascii) : bool :=
  Nat.ltb (code a) 128 && negb (between 65 90 a).

Definition caseless_char (a : ascii) : bool :=
  plain_char a && negb (between 97 122 a).

Fixpoint all_chars_of (f : ascii -> bool) (p : string) : bool :=
  match p with
  | EmptyString => true
  | String a p' => f a && all_chars_of f p'
  end.

(** ** IPv6 addresses written in full *)

Definition hex_value (c : ascii) : option Z :=
  if between 48 57 c then Some (Z.of_nat (code c) - 48)
  else if between 97 102 c then Some (Z.of_nat (code c) - 87)
  else if between 65 70 c then Some (Z.of_nat (code c) - 55)
  else None.

Fixpoint hex_digits_value (acc : Z) (s : string) : option Z :=
  match s with
  | EmptyString => Some acc
  | String c s' =>
      match hex_value c with
      | Some h => hex_digits_value (16 * acc + h) s'
      | None => None
      end
  end.

(** A group of one to four hexadecimal digits. *)
Definition hex_group (g : string) : option Z :=
  if Nat.leb 1 (String.length g) && Nat.leb (String.length g) 4
  then hex_digits_value 0 g
  else None.

(** The 128-bit value of an address written as eight groups, without [::].
    The loopback address is 1 and the unspecified address is 0. *)
Definition ipv6_full_value (s : string) : option Z :=
  let groups := split ":" s in
  if Nat.eqb (length groups) 8 then
    fold_left (fun acc g =>
                 match acc, hex_group g with
                 | Some a, Some v => Some (a * 65536 + v)
                 | _, _ => None
                 end) groups (Some 0)
  else None.

(** ** Sample runs *)

(** A client at 203.0.113.9 asks for ports 443, 80 and 443 again of
    8.8.8.8: port 443 accepts after 12 ms and port 80 refuses. *)
Definition sample_payload : value :=
  VObject [ ("target", VString "8.8.8.8");
            ("ports", VArray [VNumber (Num 443); VNumber (Num 80); VNumber (Num 443)]) ].

Definition sample_network (host : string) (p : number) : connection :=
  if SameValueZero p (Num 443) then
    {| started := 1700000000000; quiet := 12;
       events := [ev_connect 1700000000012] |}
  else
    {| started := 1700000000020; quiet := 3;
       events := [ev_error (Some {| err_code := Some "ECONNREFUSED" |})] |}.

Definition sample_world : world :=
  {| Date_now := 1700000000000;
     JSON_parse := fun _ => Ok sample_payload;
     dns_lookup := fun name => Throw ("getaddrinfo ENOTFOUND " ++ name);
     socket_connect := sample_network;
     toISOString := "2023-11-14T22:13:20.000Z" |}.

Definition sample_request : request :=
  {| remoteAddress := Some "203.0.113.9"; request_body := "{...}" |}.

Definition sample_scan : ScanResult :=
  {| scan_target := "8.8.8.8"; scan_ip := "8.8.8.8";
     results := [ {| port := Num 443; status := open; latency_ms := Some 12 |};
                  {| port := Num 80; status := closed; latency_ms := None |} ];
     timestamp := "2023-11-14T22:13:20.000Z" |}.

(** A refused connection on port 80, followed by further events. *)
Definition refused_network (host : string) (p : number) : connection :=
  {| started := 1700000000000; quiet := 3;
     events := [ev_error (Some {| err_code := Some "ECONNREFUSED" |});
                ev_timeout; ev_connect 1700000000250] |}.

(** The connection is completed after 2 500 000 000 ms. *)
Definition slow_network (host : string) (p : number) : connection :=
  {| started := 1700000000000; quiet := 2500000000;
     events := [ev_connect 1702500000000] |}.

(** The network never answers. *)
Definition silent_network (host : string) (p : number) : connection :=
  {| started := 1700000000000; quiet := 0; events := [] |}.

(** The request of the test suite: ports 80, 443 and 80 again. *)
Definition ports_80_443_80 : value :=
  VArray [VNumber (Num 80); VNumber (Num 443); VNumber (Num 80)].

(** The same client asks for port 9999, and asks again three seconds
    later. *)
Definition bad_ports_world (now : Z) : world :=
  {| Date_now := now;
     JSON_parse := fun _ =>
       Ok (VObject [ ("target", VString "8.8.8.8");
                     ("ports", VArray [VNumber (Num 9999)]) ]);
     dns_lookup := fun name => Throw ("getaddrinfo ENOTFOUND " ++ name);
     socket_connect := sample_network;
     toISOString := "2023-11-14T22:13:20.000Z" |}.

(** ** Runs of the rate limiter *)

(** The answers of [enforceRateLimit] to a sequence of calls, each with the
    clock reading and the client of the call. *)
Fixpoint admissions (calls : list (Z * string)) (rateLimitMap : gmap string Z)
    : list bool :=
  match calls with
  | [] => []
  | (now, clientId) :: rest =>
      let (admitted, rateLimitMap) := enforceRateLimit now clientId rateLimitMap in
      admitted :: admissions rest rateLimitMap
  end.

(** ** Errors of the handler *)

(** The messages of the errors that [resolveTarget] throws itself. *)
Definition InvalidTarget (message : string) : Prop :=
  In message [ "Target is required";
               "Localhost is not allowed";
               "Private IPs are not allowed";
               "Invalid domain name";
               "Target resolves to a private IP" ].

(** The answer of the [catch] block to an error with a non-empty
    message. *)
Definition error_response (code : Z) (message : string) : response :=
  {| statusCode := code;
     headers := corsHeaders [("Content-Type", "application/json")];
     body := ErrorBody message |}.


(** The lookup of every name is rejected, as for a name that does not
    exist. *)
Definition not_found_world (now : Z) (target : string) : world :=
  {| Date_now := now;
     JSON_parse := fun _ =>
       Ok (VObject [ ("target", VString target);
                     ("ports", VArray [VNumber (Num 80)]) ]);
     dns_lookup := fun name => Throw ("getaddrinfo ENOTFOUND " ++ name);
     socket_connect := sample_network;
     toISOString := "2023-11-14T22:13:20.000Z" |}.

(** ** The shape of a domain name *)

(** A letter, a digit or a hyphen. *)
Definition is_label_char (c : ascii) : bool :=
  in_class [(65, 90); (97, 122); (48, 57); (45, 45)]%nat c.

Fixpoint ends_with_char (c : ascii) (s : string) : bool :=
  match s with
  | EmptyString => false
  | String x EmptyString => Ascii.eqb x c
  | String _ s' => ends_with_char c s'
  end.

(** A label: 1 to 63 letters, digits and hyphens, with no hyphen at either
    end. *)
Definition valid_label (l : string) : bool :=
  Nat.leb 1 (String.length l) && Nat.leb (String.length l) 63
  && all_chars_of is_label_char l
  && negb (startsWith "-" l) && negb (ends_with_char "-" l).

(** Two or more labels joined by dots. *)
Definition domain_shape (s : string) : bool :=
  let labels := split "." s in
  Nat.leb 2 (length labels) && forallb valid_label labels.

(** The labels after the first, each behind its dot. *)
Fixpoint dotted_tail (labels : list string) : string :=
  match labels with
  | [] => EmptyString
  | l :: rest => String "." (l ++ dotted_tail rest)
  end.

(** ** Targets *)

(** [s] is [p] up to the case of ASCII letters. *)
Fixpoint equal_ci (p s : string) : bool :=
  match p, s with
  | EmptyString, EmptyString => true
  | String a p', String b s' => same_char_ci a b && equal_ci p' s'
  | _, _ => false
  end.

(** An expression that certainly matches nothing. *)
Fixpoint empty_lang (r : regex) : bool :=
  match r with
  | Void => true
  | Eps => false
  | Class ranges => match ranges with [] => true | _ => false end
  | Seq a b => empty_lang a || empty_lang b
  | Alt a b => empty_lang a && empty_lang b
  | Star _ => false
  | And a b => empty_lang a || empty_lang b
  | Not _ => false
  end.

(** A resolver that knows one name. *)
Definition sample_dns (name : string) : result (list LookupAddress) :=
  if String.eqb name "example.com" then
    Ok [ {| entry_address := "10.0.0.7"; family := 4 |};
         {| entry_address := "::1"; family := 6 |};
         {| entry_address := "93.184.216.34"; family := 4 |};
         {| entry_address := "192.168.1.1"; family := 4 |} ]
  else Throw ("getaddrinfo ENOTFOUND " ++ name).

(** ** Headers *)

(** The value of a header in an object built by spreading: of two entries
    with one name the later one counts. *)
Definition header (name : string) (hs : list (string * string)) : option string :=
  option_map snd (List.find (fun kv => String.eqb (fst kv) name) (rev hs)).

(** * Properties *)

(** ** Regular expressions: the matcher decides the language *)

Lemma append_nil_r (s : string) : s ++ "" = s.
Proof. induction s as [|c s IH]; simpl; [reflexivity | rewrite IH; reflexivity]. Qed.

Lemma append_assoc (s t u : string) : (s ++ t) ++ u = s ++ (t ++ u).
Proof. induction s as [|c s IH]; simpl; [reflexivity | rewrite IH; reflexivity]. Qed.

Lemma append_eq_nil (u v : string) : "" = u ++ v -> u = "" /\ v = "".
Proof. destruct u; simpl; [auto | discriminate]. Qed.

Lemma nullable_lang (r : regex) : nullable r = true <-> lang r "".
Proof.
  induction r as [| |ranges|a IHa b IHb|a IHa b IHb|a IHa|a IHa b IHb|a IHa]; simpl.
  - split; [discriminate | tauto].
  - tauto.
  - split; [discriminate | intros (c & Hc & _); discriminate].
  - rewrite andb_true_iff, IHa, IHb. split.
    + intros [Ha Hb]. exists "", "". auto.
    + intros (u & v & Huv & Ha & Hb).
      apply append_eq_nil in Huv. destruct Huv; subst. auto.
  - rewrite orb_true_iff, IHa, IHb. tauto.
  - split; [intros _; constructor | reflexivity].
  - rewrite andb_true_iff, IHa, IHb. tauto.
  - rewrite negb_true_iff, <- IHa. destruct (nullable a); split; congruence.
Qed.

(** A non-empty member of a starred language starts with a non-empty
    member of the language. *)
Lemma star_cons (L : string -> Prop) (c : ascii) (s : string) :
  star L (String c s) ->
  exists u v, s = u ++ v /\ L (String c u) /\ star L v.
Proof.
  intros H. remember (String c s) as t eqn:Ht. revert c s Ht.
  induction H as [|u v Hu Hv IH]; intros c s Ht; [discriminate|].
  destruct u as [|c' u]; simpl in Ht.
  - apply IH. exact Ht.
  - inversion Ht; subst. exists u, v. auto.
Qed.

Lemma deriv_lang (c : ascii) (r : regex) (s : string) :
  lang (deriv c r) s <-> lang r (String c s).
Proof.
  revert s.
  induction r as [| |ranges|a IHa b IHb|a IHa b IHb|a IHa|a IHa b IHb|a IHa];
    intros s; simpl.
  - tauto.
  - split; [tauto | discriminate].
  - destruct (in_class ranges c) eqn:Hc; simpl.
    + split.
      * intros ->. exists c. auto.
      * intros (c' & Heq & _). inversion Heq. reflexivity.
    + split; [tauto|]. intros (c' & Heq & Hc'). inversion Heq; subst. congruence.
  - assert (Hcons : (exists u v, s = u ++ v /\ lang (deriv c a) u /\ lang b v) <->
                    (exists u v, String c s = String c u ++ v /\ lang a (String c u) /\ lang b v)).
    { split; intros (u & v & Huv & Ha & Hb); exists u, v.
      - subst s. rewrite <- IHa. auto.
      - simpl in Huv. inversion Huv. rewrite IHa. auto. }
    destruct (nullable a) eqn:Hna; simpl.
    + rewrite Hcons, IHb. split.
      * intros [(u & v & Huv & Ha & Hb) | Hb].
        -- exists (String c u), v. auto.
        -- exists "", (String c s). split; [reflexivity|]. split; [|exact Hb].
           apply nullable_lang. exact Hna.
      * intros (u & v & Huv & Ha & Hb). destruct u as [|c' u]; simpl in Huv.
        -- right. subst v. exact Hb.
        -- left. inversion Huv; subst. exists u, v. auto.
    + rewrite Hcons. split.
      * intros (u & v & Huv & Ha & Hb). exists (String c u), v. auto.
      * intros (u & v & Huv & Ha & Hb). destruct u as [|c' u]; simpl in Huv.
        -- apply nullable_lang in Ha. congruence.
        -- inversion Huv; subst. exists u, v. auto.
  - rewrite IHa, IHb. tauto.
  - split.
    + intros (u & v & Huv & Ha & Hv). subst s.
      change (String c (u ++ v)) with (String c u ++ v).
      constructor; [apply IHa; exact Ha | exact Hv].
    + intros H. apply star_cons in H. destruct H as (u & v & Huv & Ha & Hv).
      exists u, v. rewrite IHa. auto.
  - rewrite IHa, IHb. tauto.
  - rewrite IHa. tauto.
Qed.

Lemma test_lang (r : regex) (s : string) : test r s = true <-> lang r s.
Proof.
  revert r. induction s as [|c s IH]; intros r; simpl.
  - apply nullable_lang.
  - rewrite IH. apply deriv_lang.
Qed.

(** Every code unit is one of the 256. *)
Lemma all_chars_complete (c : ascii) : In c all_chars.
Proof.
  unfold all_chars. rewrite <- (ascii_nat_embedding c).
  apply in_map. apply in_seq. pose proof (nat_ascii_bounded c). lia.
Qed.

#[local] Opaque all_chars.

Lemma enum_lang (r : regex) (l : list string) (s : string) :
  enum r = Some l -> lang r s -> In s l.
Proof.
  revert l s.
  induction r as [| |ranges|a IHa b IHb|a IHa b IHb|a IHa|a IHa b IHb|a IHa];
    intros l s Hl Hs; cbn [enum lang] in *.
  - contradiction.
  - injection Hl as <-. left. congruence.
  - injection Hl as <-. destruct Hs as (c & -> & Hc).
    apply (in_map (fun c => String c "")).
    apply List.filter_In. split; [apply all_chars_complete | exact Hc].
  - destruct (enum a) as [la|]; [|discriminate].
    destruct (enum b) as [lb|]; [|discriminate].
    injection Hl as <-. destruct Hs as (u & v & -> & Ha & Hb).
    apply in_flat_map. exists u. split; [apply IHa; auto|].
    apply in_map. apply IHb; auto.
  - destruct (enum a) as [la|]; [|discriminate].
    destruct (enum b) as [lb|]; [|discriminate].
    injection Hl as <-. apply in_or_app.
    destruct Hs as [Ha | Hb]; [left | right]; auto.
  - discriminate.
  - discriminate.
  - discriminate.
Qed.

(** ** IPv4 literals *)

Lemma in_class_chr (a c : ascii) : in_class [(code a, code a)] c = true -> c = a.
Proof.
  unfold in_class, between. simpl. rewrite orb_false_r, andb_true_iff.
  intros [H1 H2]. apply Nat.leb_le in H1, H2.
  assert (Hcode : code c = code a) by lia.
  unfold code in Hcode.
  rewrite <- (ascii_nat_embedding c), <- (ascii_nat_embedding a), Hcode. reflexivity.
Qed.

Lemma lang_chr (a : ascii) (s : string) : lang (chr a) s -> s = String a "".
Proof. intros (c & -> & Hc). apply in_class_chr in Hc. subst. reflexivity. Qed.

(** The shape of [(?:X\.){3}X]. *)
Lemma lang_dotted (X : regex) (s : string) :
  lang (Seq (times 3 (Seq X net.dot)) X) s ->
  exists s1 s2 s3 s4,
    s = s1 ++ "." ++ s2 ++ "." ++ s3 ++ "." ++ s4 /\
    lang X s1 /\ lang X s2 /\ lang X s3 /\ lang X s4.
Proof.
  simpl. intros (u & s4 & -> & Hu & H4).
  destruct Hu as (u1 & r1 & -> & (s1 & d1 & -> & H1 & Hd1) & Hr1).
  destruct Hr1 as (u2 & r2 & -> & (s2 & d2 & -> & H2 & Hd2) & Hr2).
  destruct Hr2 as (u3 & r3 & -> & (s3 & d3 & -> & H3 & Hd3) & ->).
  apply lang_chr in Hd1, Hd2, Hd3. subst.
  exists s1, s2, s3, s4. repeat split; auto.
  rewrite append_nil_r, !append_assoc. reflexivity.
Qed.

(** The components that [v4Seg] admits are the writings of 0 to 255. *)
Lemma v4Seg_octet_ok (t : string) : lang net.v4Seg t -> octet_ok t = true.
Proof.
  intros Ht.
  assert (Henum : exists l, enum net.v4Seg = Some l /\ forallb octet_ok l = true).
  { eexists. split; [vm_compute; reflexivity | vm_compute; reflexivity]. }
  destruct Henum as (l & Hl & Hall).
  rewrite forallb_forall in Hall. apply Hall. eapply enum_lang; eauto.
Qed.

Lemma octet_ok_inv (t : string) :
  octet_ok t = true ->
  contains_char "." t = false /\
  exists n, Number (VString t) = Num n /\ 0 <= n <= 255 /\ t = decimal n.
Proof.
  unfold octet_ok. rewrite andb_true_iff, negb_true_iff. intros [Hdot Hn].
  split; [exact Hdot|].
  destruct (Number (VString t)) as [|n| |]; try discriminate.
  rewrite !andb_true_iff in Hn. destruct Hn as [[Hlo Hhi] Heq].
  exists n. split; [reflexivity|]. split; [lia|].
  apply String.eqb_eq. exact Heq.
Qed.

Lemma split_no_dot (u : string) :
  contains_char "." u = false -> split "." u = [u].
Proof.
  induction u as [|c u IH]; simpl; [reflexivity|].
  rewrite orb_false_iff. intros [Hc Hu]. rewrite Hc, (IH Hu). reflexivity.
Qed.

Lemma split_dot_app (u v : string) :
  contains_char "." u = false -> split "." (u ++ String "." v) = u :: split "." v.
Proof.
  induction u as [|c u IH]; intros Hdot.
  - reflexivity.
  - simpl in Hdot. apply orb_false_iff in Hdot. destruct Hdot as [Hc Hu].
    change (String c u ++ String "." v) with (String c (u ++ String "." v)).
    cbn [split]. rewrite Hc, (IH Hu). reflexivity.
Qed.

(** [isPrivateIpv4] on a string that splits into four octets. *)
Lemma isPrivateIpv4_octets (s : string) (a b c d : Z) :
  map (fun piece => Number (VString piece)) (split "." s) = [Num a; Num b; Num c; Num d] ->
  0 <= a <= 255 -> 0 <= b <= 255 -> 0 <= c <= 255 -> 0 <= d <= 255 ->
  isPrivateIpv4 (Some s) = Ok (private_octets a b).
Proof.
  intros Hoct Ha Hb Hc Hd. unfold isPrivateIpv4. rewrite Hoct.
  unfold private_octets, gt, ge, le, lt, strict_eq, isNaN. simpl.
  repeat match goal with
         | |- context [?x <? ?y] => destruct (Z.ltb_spec x y); try lia
         end.
  simpl.
  repeat match goal with
         | |- context [?x =? ?y] => destruct (Z.eqb_spec x y); simpl; try lia
         | |- context [?x <=? ?y] => destruct (Z.leb_spec x y); simpl; try lia
         end; reflexivity.
Qed.

Lemma shiftr_24 (a b c d : Z) :
  0 <= b <= 255 -> 0 <= c <= 255 -> 0 <= d <= 255 ->
  Z.shiftr (ipv4_value a b c d) 24 = a.
Proof.
  intros Hb Hc Hd. unfold ipv4_value. rewrite Z.shiftr_div_pow2 by lia.
  change (2 ^ 24) with 16777216. change (2 ^ 16) with 65536. change (2 ^ 8) with 256.
  symmetry. apply (Z.div_unique _ _ _ (b * 65536 + c * 256 + d)); lia.
Qed.

Lemma shiftr_16 (a b c d : Z) :
  0 <= c <= 255 -> 0 <= d <= 255 ->
  Z.shiftr (ipv4_value a b c d) 16 = a * 256 + b.
Proof.
  intros Hc Hd. unfold ipv4_value. rewrite Z.shiftr_div_pow2 by lia.
  change (2 ^ 24) with 16777216. change (2 ^ 16) with 65536. change (2 ^ 8) with 256.
  symmetry. apply (Z.div_unique _ _ _ (c * 256 + d)); lia.
Qed.

Lemma shiftr_20 (a b c d : Z) :
  0 <= b <= 255 -> 0 <= c <= 255 -> 0 <= d <= 255 ->
  Z.shiftr (ipv4_value a b c d) 20 = a * 16 + b / 16.
Proof.
  intros Hb Hc Hd. unfold ipv4_value. rewrite Z.shiftr_div_pow2 by lia.
  change (2 ^ 24) with 16777216. change (2 ^ 16) with 65536. change (2 ^ 8) with 256.
  change (2 ^ 20) with 1048576.
  symmetry. apply (Z.div_unique _ _ _ ((b mod 16) * 65536 + c * 256 + d)).
  - pose proof (Z.mod_pos_bound b 16). lia.
  - pose proof (Z.div_mod b 16). lia.
Qed.

(** The octet test of the code is membership of the six private blocks. *)
Lemma private_octets_blocks (a b c d : Z) :
  0 <= a <= 255 -> 0 <= b <= 255 -> 0 <= c <= 255 -> 0 <= d <= 255 ->
  private_octets a b = in_private_block (ipv4_value a b c d).
Proof.
  intros Ha Hb Hc Hd.
  unfold in_private_block, private_blocks, in_cidr. cbn [existsb fst snd].
  change (32 - 8) with 24. change (32 - 16) with 16. change (32 - 12) with 20.
  rewrite !(shiftr_24 a b c d), !(shiftr_16 a b c d), !(shiftr_20 a b c d) by assumption.
  rewrite !shiftr_24, !shiftr_16, !shiftr_20 by lia.
  change (0 / 16) with 0. change (16 / 16) with 1.
  unfold private_octets. rewrite orb_false_r.
  pose proof (Z.div_mod b 16 ltac:(lia)) as Hdm.
  pose proof (Z.mod_pos_bound b 16 ltac:(lia)) as Hmod.
  repeat match goal with
         | |- context [?x =? ?y] => destruct (Z.eqb_spec x y); simpl
         | |- context [?x <=? ?y] => destruct (Z.leb_spec x y); simpl
         end; try reflexivity; try lia.
Qed.

(** A string that [net.isIP] takes for IPv4 is the dotted-decimal writing of
    four octets, and [split] and [Number] read these octets back. *)
Lemma isIPv4_octets (s : string) :
  net.isIPv4 s = true ->
  exists a b c d,
    0 <= a <= 255 /\ 0 <= b <= 255 /\ 0 <= c <= 255 /\ 0 <= d <= 255 /\
    s = dotted a b c d /\
    map (fun piece => Number (VString piece)) (split "." s)
    = [Num a; Num b; Num c; Num d].
Proof.
  unfold net.isIPv4. rewrite test_lang. intros Hs.
  apply lang_dotted in Hs. destruct Hs as (s1 & s2 & s3 & s4 & -> & H1 & H2 & H3 & H4).
  apply v4Seg_octet_ok, octet_ok_inv in H1, H2, H3, H4.
  destruct H1 as (Hd1 & a & Na & Ha & Ea), H2 as (Hd2 & b & Nb & Hb & Eb),
           H3 as (Hd3 & c & Nc & Hc & Ec), H4 as (Hd4 & d & Nd & Hd & Ed).
  exists a, b, c, d. repeat split; try lia.
  - unfold dotted. congruence.
  - change (s1 ++ "." ++ s2 ++ "." ++ s3 ++ "." ++ s4)
      with (s1 ++ String "." (s2 ++ String "." (s3 ++ String "." s4))).
    rewrite !split_dot_app, split_no_dot by assumption.
    cbn [map]. rewrite Na, Nb, Nc, Nd. reflexivity.
Qed.

Lemma isIP_4 (s : string) : net.isIP s = 4 -> net.isIPv4 s = true.
Proof.
  unfold net.isIP. destruct (net.isIPv4 s); [reflexivity|].
  destruct (net.isIPv6 s); discriminate.
Qed.

Lemma isIP_nonempty (s : string) : net.isIP s <> 0 -> truthy (Some s) = true.
Proof. destruct s; [intros H; exfalso; apply H; reflexivity | reflexivity]. Qed.

(** The writings of 0 to 255 are components that [v4Seg] admits. *)
Lemma decimal_octet_table :
  forallb (fun n => test net.v4Seg (decimal n))
          (map Z.of_nat (seq 0 256)) = true.
Proof. vm_compute. reflexivity. Qed.

Lemma v4Seg_decimal (n : Z) : 0 <= n <= 255 -> lang net.v4Seg (decimal n).
Proof.
  intros Hn. apply test_lang.
  pose proof decimal_octet_table as Htab. rewrite forallb_forall in Htab.
  apply Htab. rewrite <- (Z2Nat.id n) by lia.
  apply in_map. apply in_seq. lia.
Qed.

Lemma lang_chr_intro (a : ascii) : lang (chr a) (String a "").
Proof.
  exists a. split; [reflexivity|].
  unfold in_class, between. simpl. rewrite !Nat.leb_refl. reflexivity.
Qed.

(** The dotted-decimal writing of four octets is an IPv4 literal. *)
Lemma isIP_dotted (a b c d : Z) :
  0 <= a <= 255 -> 0 <= b <= 255 -> 0 <= c <= 255 -> 0 <= d <= 255 ->
  net.isIP (dotted a b c d) = 4.
Proof.
  intros Ha Hb Hc Hd.
  assert (H4 : net.isIPv4 (dotted a b c d) = true).
  { apply test_lang. unfold net.IPv4Reg, net.v4Str, dotted.
    assert (Hseg : forall n, 0 <= n <= 255 ->
                     lang (Seq net.v4Seg net.dot) (decimal n ++ ".")).
    { intros n Hn. exists (decimal n), ".".
      repeat split; [apply v4Seg_decimal; exact Hn | apply lang_chr_intro]. }
    exists (decimal a ++ "." ++ decimal b ++ "." ++ decimal c ++ "."), (decimal d).
    split; [rewrite !append_assoc; reflexivity|].
    split; [|apply v4Seg_decimal; exact Hd].
    exists (decimal a ++ "."), (decimal b ++ "." ++ decimal c ++ ".").
    split; [rewrite !append_assoc; reflexivity|]. split; [apply Hseg; exact Ha|].
    exists (decimal b ++ "."), (decimal c ++ ".").
    split; [rewrite !append_assoc; reflexivity|]. split; [apply Hseg; exact Hb|].
    exists (decimal c ++ "."), "".
    split; [rewrite append_nil_r; reflexivity|]. split; [apply Hseg; exact Hc|].
    reflexivity. }
  unfold net.isIP. rewrite H4. reflexivity.
Qed.

(** ** IPv6 literals *)

Lemma lower_char_table :
  forallb (fun a =>
    forallb (fun x =>
      implb (plain_char a)
            (Bool.eqb (Ascii.eqb a (lower_char x)) (same_char_ci a x)) &&
      implb (caseless_char a)
            (Bool.eqb (Ascii.eqb (lower_char x) a) (Ascii.eqb x a)))
      all_chars) all_chars = true.
Proof. vm_compute. reflexivity. Qed.

Lemma lower_char_ci (a x : ascii) :
  plain_char a = true -> Ascii.eqb a (lower_char x) = same_char_ci a x.
Proof.
  intros Ha. pose proof lower_char_table as Htab.
  rewrite forallb_forall in Htab. specialize (Htab a (all_chars_complete a)).
  rewrite forallb_forall in Htab. specialize (Htab x (all_chars_complete x)).
  rewrite Ha in Htab. simpl in Htab. apply andb_true_iff in Htab.
  destruct Htab as [Htab _]. apply eqb_prop in Htab. exact Htab.
Qed.

Lemma lower_char_caseless (a x : ascii) :
  caseless_char a = true -> Ascii.eqb (lower_char x) a = Ascii.eqb x a.
Proof.
  intros Ha. pose proof lower_char_table as Htab.
  rewrite forallb_forall in Htab. specialize (Htab a (all_chars_complete a)).
  rewrite forallb_forall in Htab. specialize (Htab x (all_chars_complete x)).
  rewrite Ha in Htab. apply andb_true_iff in Htab.
  destruct Htab as [_ Htab]. simpl in Htab. apply eqb_prop in Htab. exact Htab.
Qed.

(** Lowering the subject and comparing with a lower-case pattern is the
    case-insensitive comparison. *)
Lemma startsWith_toLowerCase (p s : string) :
  all_chars_of plain_char p = true ->
  startsWith p (toLowerCase s) = prefix_ci p s.
Proof.
  revert s. induction p as [|a p IH]; intros s Hp; [destruct s; reflexivity|].
  simpl in Hp. apply andb_true_iff in Hp. destruct Hp as [Ha Hp].
  destruct s as [|x s]; simpl; [reflexivity|].
  rewrite (lower_char_ci a x Ha), (IH s Hp). reflexivity.
Qed.

Lemma eqb_toLowerCase (p s : string) :
  all_chars_of caseless_char p = true ->
  String.eqb (toLowerCase s) p = String.eqb s p.
Proof.
  revert s. induction p as [|a p IH]; intros s Hp; [destruct s; reflexivity|].
  simpl in Hp. apply andb_true_iff in Hp. destruct Hp as [Ha Hp].
  destruct s as [|x s]; simpl; [reflexivity|].
  rewrite (lower_char_caseless a x Ha), (IH s Hp). reflexivity.
Qed.

Lemma isPrivateIpv6_ci (s : string) :
  isPrivateIpv6 (Some s)
  = Ok (String.eqb s "::1" || prefix_ci "fe80:" s || prefix_ci "fc" s || prefix_ci "fd" s).
Proof.
  unfold isPrivateIpv6.
  rewrite (eqb_toLowerCase "::1" s) by reflexivity.
  rewrite !startsWith_toLowerCase by reflexivity.
  destruct (String.eqb s "::1"), (prefix_ci "fe80:" s), (prefix_ci "fc" s),
    (prefix_ci "fd" s); reflexivity.
Qed.

(** ** The classifier *)

(** On a literal, [isPrivateIp] is the classifier of its family. *)
Lemma isPrivateIp_IPv4 (s : string) :
  net.isIP s = 4 -> isPrivateIp (Some s) = isPrivateIpv4 (Some s).
Proof.
  intros Hs. unfold isPrivateIp.
  rewrite isIP_nonempty by (rewrite Hs; discriminate).
  unfold net_isIP. rewrite Hs. reflexivity.
Qed.

Lemma isPrivateIp_IPv6 (s : string) :
  net.isIP s = 6 -> isPrivateIp (Some s) = isPrivateIpv6 (Some s).
Proof.
  intros Hs. unfold isPrivateIp.
  rewrite isIP_nonempty by (rewrite Hs; discriminate).
  unfold net_isIP. rewrite Hs. reflexivity.
Qed.

(** C3: the IPv4 literals are the dotted-decimal writings of four octets,
    and on such a literal [isPrivateIp] is true exactly when the address
    lies in 10.0.0.0/8, 127.0.0.0/8, 0.0.0.0/8, 169.254.0.0/16,
    172.16.0.0/12 or 192.168.0.0/16; on an IPv6 literal it is true exactly
    when the string is [::1] or begins, case-insensitively, with [fe80:],
    [fc] or [fd]. *)
Theorem isPrivateIp_ranges :
  (forall a b c d,
     0 <= a <= 255 -> 0 <= b <= 255 -> 0 <= c <= 255 -> 0 <= d <= 255 ->
     net.isIP (dotted a b c d) = 4) /\
  (forall s, net.isIP s = 4 ->
     exists a b c d,
       0 <= a <= 255 /\ 0 <= b <= 255 /\ 0 <= c <= 255 /\ 0 <= d <= 255 /\
       s = dotted a b c d /\
       isPrivateIp (Some s) = Ok (in_private_block (ipv4_value a b c d))) /\
  (forall s, net.isIP s = 6 ->
     isPrivateIp (Some s)
     = Ok (String.eqb s "::1" || prefix_ci "fe80:" s || prefix_ci "fc" s
           || prefix_ci "fd" s)).
Proof.
  split; [exact isIP_dotted|].
  split; intros s Hs.
  - destruct (isIPv4_octets s (isIP_4 s Hs))
      as (a & b & c & d & Ha & Hb & Hc & Hd & Hdot & Hoct).
    exists a, b, c, d. repeat split; try lia; [exact Hdot|].
    rewrite (isPrivateIp_IPv4 s Hs).
    rewrite (isPrivateIpv4_octets s a b c d Hoct Ha Hb Hc Hd).
    rewrite (private_octets_blocks a b c d Ha Hb Hc Hd). reflexivity.
  - rewrite (isPrivateIp_IPv6 s Hs). apply isPrivateIpv6_ci.
Qed.

(** The addresses of the test suite. *)
Example isPrivateIp_samples :
  map (fun s => isPrivateIp (Some s))
      ["10.0.0.1"; "172.16.0.5"; "192.168.1.1"; "127.0.0.1"; "::1"; "fe80::1";
       "8.8.8.8"; "1.1.1.1"; "2001:4860:4860::8888"]
  = [Ok true; Ok true; Ok true; Ok true; Ok true; Ok true;
     Ok false; Ok false; Ok false].
Proof. vm_compute. reflexivity. Qed.

(** C2: on [undefined], on the empty string and on every string that is
    neither an IPv4 nor an IPv6 literal, [isPrivateIp] returns true and does
    not throw. *)
Theorem isPrivateIp_fail_closed (address : option string) :
  net_isIP address <> 4 -> net_isIP address <> 6 ->
  isPrivateIp address = Ok true.
Proof.
  intros H4 H6. unfold isPrivateIp.
  destruct (truthy address); simpl; [|reflexivity].
  destruct (Z.eqb_spec (net_isIP address) 4); [contradiction|].
  destruct (Z.eqb_spec (net_isIP address) 6); [contradiction|].
  reflexivity.
Qed.

Lemma isPrivateIp_fail_closed_witness :
  isPrivateIp None = Ok true /\
  isPrivateIp (Some "") = Ok true /\
  isPrivateIp (Some "1.2.3") = Ok true /\
  isPrivateIp (Some "a.b.c.d") = Ok true /\
  isPrivateIp (Some "256.1.1.1") = Ok true.
Proof.
  split; [|split; [|split; [|split]]];
    apply isPrivateIp_fail_closed; vm_compute; discriminate.
Defined.

(** ** Target resolution *)

(** The address that [find] selects is one the classifier calls public. *)
Lemma find_public_Some (addresses : list LookupAddress) (entry : LookupAddress) :
  find_public addresses = Ok (Some entry) ->
  In entry addresses /\ isPrivateIp (Some (entry_address entry)) = Ok false.
Proof.
  induction addresses as [|e rest IH]; simpl; [discriminate|].
  destruct (isPrivateIp (Some (entry_address e))) as [[|]|msg] eqn:He; simpl.
  - intros H. destruct (IH H). auto.
  - intros H. inversion H; subst. auto.
  - discriminate.
Qed.

Lemma isPrivateIp_false_literal (s : string) :
  isPrivateIp (Some s) = Ok false -> net.isIP s = 4 \/ net.isIP s = 6.
Proof.
  unfold isPrivateIp. destruct (truthy (Some s)); simpl; [|discriminate].
  destruct (Z.eqb_spec (net.isIP s) 4); [auto|].
  destruct (Z.eqb_spec (net.isIP s) 6); [auto|]. discriminate.
Qed.

(** What [resolveTarget] does guarantee: the address it returns is an IP
    literal that [isPrivateIp] classifies as public. *)
Lemma resolveTarget_address_classified (dns : string -> result (list LookupAddress))
    (target : value) (rt : ResolvedTarget) :
  resolveTarget dns target = Ok rt ->
  (net.isIP (address rt) = 4 \/ net.isIP (address rt) = 6) /\
  isPrivateIp (Some (address rt)) = Ok false.
Proof.
  unfold resolveTarget. intros H.
  destruct target as [| | | |[|c t]| |]; try discriminate.
  set (trimmed := trim (String c t)) in *.
  destruct (String.eqb (toLowerCase trimmed) "localhost"); [discriminate|].
  assert (Hgoal : isPrivateIp (Some (address rt)) = Ok false).
  { destruct (negb (net.isIP trimmed =? 0)).
    - destruct (isPrivateIp (Some trimmed)) as [[|]|msg] eqn:Hp; simpl in H;
        try discriminate.
      inversion H; subst. exact Hp.
    - destruct (negb (isValidDomain trimmed)); [discriminate|].
      destruct (dns trimmed) as [addresses|msg]; simpl in H; [|discriminate].
      destruct (find_public addresses) as [[entry|]|msg] eqn:Hf; simpl in H;
        try discriminate.
      inversion H; subst. simpl. apply (find_public_Some _ _ Hf). }
  split; [apply isPrivateIp_false_literal|]; exact Hgoal.
Qed.

(** C1, at the failing inputs: [resolveTarget] returns the IPv6 loopback
    address and the IPv6 unspecified address as public targets when they
    are written in full or, for the latter, as [::], although it refuses
    [::1] and the IPv4 blocks 127.0.0.0/8 and 0.0.0.0/8. *)
Theorem resolveTarget_accepts_ipv6_loopback (dns : string -> result (list LookupAddress)) :
  ipv6_full_value "0:0:0:0:0:0:0:1" = Some 1 /\
  resolveTarget dns (VString "0:0:0:0:0:0:0:1")
  = Ok {| hostname := "0:0:0:0:0:0:0:1"; address := "0:0:0:0:0:0:0:1" |} /\
  ipv6_full_value "0:0:0:0:0:0:0:0" = Some 0 /\
  resolveTarget dns (VString "0:0:0:0:0:0:0:0")
  = Ok {| hostname := "0:0:0:0:0:0:0:0"; address := "0:0:0:0:0:0:0:0" |} /\
  resolveTarget dns (VString "::") = Ok {| hostname := "::"; address := "::" |} /\
  resolveTarget dns (VString "::1") = Throw "Private IPs are not allowed" /\
  resolveTarget dns (VString "127.0.0.1") = Throw "Private IPs are not allowed" /\
  resolveTarget dns (VString "0.0.0.0") = Throw "Private IPs are not allowed".
Proof. repeat split; vm_compute; reflexivity. Qed.

(** ** Port validation *)

Lemma strict_eq_refl (x : number) : x <> NaN -> strict_eq x x = true.
Proof.
  destruct x as [|a|n|n m e]; simpl; intros H; [congruence | apply Z.eqb_refl | |].
  - destruct n; reflexivity.
  - rewrite !Pos.eqb_refl. destruct n; reflexivity.
Qed.

Lemma strict_eq_eq (x y : number) : strict_eq x y = true -> x = y.
Proof.
  destruct x as [|a|n|n m e], y as [|b|n'|n' m' e']; simpl; try discriminate.
  - intros H. apply Z.eqb_eq in H. congruence.
  - intros H. apply Bool.eqb_prop in H. congruence.
  - rewrite !andb_true_iff. intros [[Hn Hm] He].
    apply Bool.eqb_prop in Hn. apply Pos.eqb_eq in Hm, He. congruence.
Qed.

Lemma SameValueZero_eq (x y : number) : SameValueZero x y = true <-> x = y.
Proof.
  split.
  - destruct x, y; try discriminate; try reflexivity; apply strict_eq_eq.
  - intros E. subst y. destruct x; try reflexivity; apply strict_eq_refl; discriminate.
Qed.

Lemma SameValueZero_sym (x y : number) : SameValueZero x y = SameValueZero y x.
Proof.
  destruct (SameValueZero x y) eqn:E, (SameValueZero y x) eqn:E'; try reflexivity.
  - apply SameValueZero_eq in E. symmetry in E. apply SameValueZero_eq in E. congruence.
  - apply SameValueZero_eq in E'. symmetry in E'. apply SameValueZero_eq in E'. congruence.
Qed.

Lemma existsb_SameValueZero (x : number) (xs : list number) :
  existsb (SameValueZero x) xs = true <-> In x xs.
Proof.
  rewrite existsb_exists. split.
  - intros (y & Hy & Heq). apply SameValueZero_eq in Heq. subst. exact Hy.
  - intros Hin. exists x. split; [exact Hin | apply SameValueZero_eq; reflexivity].
Qed.

Lemma filter_twice {A : Type} (f g : A -> bool) (l : list A) :
  List.filter f (List.filter g l) = List.filter (fun a => g a && f a) l.
Proof.
  induction l as [|a l IH]; simpl; [reflexivity|].
  destruct (g a); simpl; [destruct (f a)|]; rewrite ?IH; reflexivity.
Qed.

(** The insertion-ordered set built from a list, started from the members
    [acc], adds the first occurrences that are not members yet. *)
Lemma fold_Set_add (xs acc : list number) :
  fold_left Set_add xs acc
  = (acc ++ List.filter (fun y => negb (existsb (SameValueZero y) acc))
              (first_occurrences xs))%list.
Proof.
  revert acc. induction xs as [|x rest IH]; intros acc; simpl.
  - rewrite app_nil_r. reflexivity.
  - rewrite IH. unfold Set_add.
    destruct (existsb (SameValueZero x) acc) eqn:Hx; simpl.
    + f_equal. rewrite filter_twice. apply List.filter_ext. intros y.
      destruct (SameValueZero x y) eqn:Hxy; simpl; [|reflexivity].
      apply SameValueZero_eq in Hxy. subst y. rewrite Hx. reflexivity.
    + rewrite <- app_assoc. simpl. f_equal. f_equal.
      rewrite filter_twice. apply List.filter_ext. intros y.
      rewrite existsb_app. simpl. rewrite orb_false_r, negb_orb.
      rewrite (SameValueZero_sym y x). apply andb_comm.
Qed.

Lemma dedupePorts_first_occurrences (xs : list number) :
  dedupePorts xs = first_occurrences xs.
Proof.
  unfold dedupePorts, Set_of. rewrite fold_Set_add. simpl.
  induction (first_occurrences xs) as [|y l IH]; simpl; [reflexivity|].
  f_equal. exact IH.
Qed.

Lemma first_occurrences_In (xs : list number) (x : number) :
  In x (first_occurrences xs) <-> In x xs.
Proof.
  induction xs as [|a rest IH]; simpl; [tauto|].
  rewrite List.filter_In, IH. split.
  - intros [H | [H _]]; auto.
  - intros [H | H]; [auto|].
    destruct (SameValueZero a x) eqn:Hax.
    + apply SameValueZero_eq in Hax. auto.
    + right. split; [exact H | reflexivity].
Qed.

Lemma first_occurrences_NoDup (xs : list number) :
  List.NoDup (first_occurrences xs).
Proof.
  induction xs as [|a rest IH]; simpl; [constructor|].
  constructor.
  - rewrite List.filter_In. intros [_ H].
    assert (Haa : SameValueZero a a = true) by (apply SameValueZero_eq; reflexivity).
    rewrite Haa in H. discriminate.
  - apply List.NoDup_filter. exact IH.
Qed.

(** A list without repetition is its own deduplication. *)
Lemma first_occurrences_fixed (xs : list number) :
  List.NoDup xs -> first_occurrences xs = xs.
Proof.
  induction 1 as [|a rest Hnotin Hnd IH]; simpl; [reflexivity|].
  rewrite IH. f_equal.
  apply List.forallb_filter_id. apply forallb_forall. intros y Hy.
  destruct (SameValueZero a y) eqn:Hay; [|reflexivity].
  apply SameValueZero_eq in Hay. subst y. contradiction.
Qed.

Lemma first_occurrences_idempotent (xs : list number) :
  first_occurrences (first_occurrences xs) = first_occurrences xs.
Proof. apply first_occurrences_fixed, first_occurrences_NoDup. Qed.

Lemma filter_nil_forallb {A : Type} (f : A -> bool) (l : list A) :
  List.filter (fun a => negb (f a)) l = [] <-> forallb f l = true.
Proof.
  induction l as [|a l IH]; simpl; [tauto|].
  destruct (f a); simpl; [exact IH|]. split; discriminate.
Qed.

(** [validatePorts] on an array, over the deduplicated coerced ports. *)
Lemma validatePorts_array (elems : list value) :
  validatePorts (VArray elems) =
    let unique := first_occurrences (map Number elems) in
    match unique with
    | [] => Throw "At least one port is required"
    | _ :: _ =>
        if Nat.ltb MAX_PORTS (length unique) then Throw "Cannot scan more than 20 ports"
        else if forallb (Array_includes ALLOWED_PORTS) unique then Ok unique
        else Throw "Ports must be in the allowed list"
    end.
Proof.
  unfold validatePorts. rewrite dedupePorts_first_occurrences.
  set (unique := first_occurrences (map Number elems)). cbv zeta.
  destruct unique as [|p unique'] eqn:Hu; [reflexivity|].
  rewrite <- Hu. replace (Nat.eqb (length unique) 0) with false by (rewrite Hu; reflexivity).
  destruct (Nat.ltb MAX_PORTS (length unique)); [reflexivity|].
  destruct (forallb (Array_includes ALLOWED_PORTS) unique) eqn:Hall.
  - apply filter_nil_forallb in Hall. rewrite Hall. reflexivity.
  - destruct (List.filter _ unique) as [|q invalid] eqn:Hf; [|reflexivity].
    apply filter_nil_forallb in Hf. congruence.
Qed.

Lemma Array_includes_In (xs : list number) (x : number) :
  Array_includes xs x = true <-> In x xs.
Proof. apply existsb_SameValueZero. Qed.

Lemma forallb_false_witness {A : Type} (f : A -> bool) (l : list A) :
  forallb f l = false -> exists a, In a l /\ f a = false.
Proof.
  induction l as [|a l IH]; simpl; [discriminate|].
  destruct (f a) eqn:Hfa; simpl.
  - intros H. destruct (IH H) as (b & Hb & Hfb). exists b. auto.
  - intros _. exists a. auto.
Qed.

(** The four ways [validatePorts] leaves its checks on an array. *)
Lemma validatePorts_array_cases (elems : list value) :
  let unique := first_occurrences (map Number elems) in
  (unique = [] /\
   validatePorts (VArray elems) = Throw "At least one port is required") \/
  (unique <> [] /\ (20 < length unique)%nat /\
   validatePorts (VArray elems) = Throw "Cannot scan more than 20 ports") \/
  (unique <> [] /\ (length unique <= 20)%nat /\
   (exists p, In p unique /\ ~ In p ALLOWED_PORTS) /\
   validatePorts (VArray elems) = Throw "Ports must be in the allowed list") \/
  (unique <> [] /\ (length unique <= 20)%nat /\
   (forall p, In p unique -> In p ALLOWED_PORTS) /\
   validatePorts (VArray elems) = Ok unique).
Proof.
  intros unique. rewrite validatePorts_array. fold unique. cbv zeta.
  destruct unique as [|p rest] eqn:Hu; [left; split; reflexivity|].
  rewrite <- Hu. assert (Hne : unique <> []) by (rewrite Hu; discriminate).
  right. unfold MAX_PORTS.
  destruct (Nat.ltb_spec 20 (length unique)) as [Hgt|Hle].
  - left. repeat split; auto.
  - right. destruct (forallb (Array_includes ALLOWED_PORTS) unique) eqn:Hall.
    + right. repeat split; auto.
      intros q Hq. apply Array_includes_In.
      rewrite forallb_forall in Hall. apply Hall. exact Hq.
    + left. repeat split; auto.
      destruct (forallb_false_witness _ _ Hall) as (q & Hq & Hfalse).
      exists q. split; [exact Hq|].
      intros Hin. apply Array_includes_In in Hin. congruence.
Qed.


(** The coercion of the elements, on samples: radix prefixes, exponents and
    fractions are read as JavaScript reads them, and an integer that no
    double holds is rounded to the nearest one. *)
Lemma StringToNumber_samples :
  map StringToNumber
    [ "80"; " 80 "; "+80"; "0x50"; "0X50"; "0b1010000"; "0o120"; "8e1"; "80.0";
      "800e-1"; ".8e2"; "80." ]
  = repeat (Num 80) 12 /\
  map StringToNumber [ ""; "  "; "-0"; "1e-400" ] = repeat (Num 0) 4 /\
  map StringToNumber [ "80px"; "8 0"; "0x"; "-0x50"; "1e"; "."; "e1"; "infinity"; "1_0" ]
  = repeat NaN 9 /\
  map StringToNumber [ "Infinity"; "+Infinity"; "1e309"; "-Infinity" ]
  = [ Infinity false; Infinity false; Infinity false; Infinity true ] /\
  map StringToNumber [ "80.5"; "0.1"; "-2.5e-1" ]
  = [ Fraction false 161 1; Fraction false 3602879701896397 55; Fraction true 1 2 ] /\
  map StringToNumber [ "9007199254740992"; "9007199254740993"; "9007199254740995" ]
  = [ Num 9007199254740992; Num 9007199254740992; Num 9007199254740996 ].
Proof. vm_compute. repeat split. Qed.

Lemma number_to_string_samples :
  map (fun s => number_to_string (StringToNumber s))
    [ "80"; "80.50"; "0.1"; "1e21"; "1e-7"; "0.000001"; "123456789012345680000";
      "9007199254740993"; "5e-324"; "-1.5e300"; "1e23" ]
  = [ "80"; "80.5"; "0.1"; "1e+21"; "1e-7"; "0.000001"; "123456789012345680000";
      "9007199254740992"; "5e-324"; "-1.5e+300"; "1e+23" ].
Proof. vm_compute. reflexivity. Qed.

Lemma validatePorts_samples :
  validatePorts (VArray [VString "0x50"; VNumber (Num 80); VString "8e1"; VString "443.0"])
  = Ok [Num 80; Num 443] /\
  validatePorts (VArray [VArray [VString " 80 "]]) = Ok [Num 80] /\
  validatePorts (VArray [VString "80.5"]) = Throw "Ports must be in the allowed list" /\
  validatePorts (VArray [VNull]) = Throw "Ports must be in the allowed list" /\
  validatePorts (VArray []) = Throw "At least one port is required" /\
  validatePorts
    (VArray (map (fun i => VString (decimal_digits (9007199254740992 + Z.of_nat i)))
               (seq 0 21)))
  = Throw "Ports must be in the allowed list" /\
  validatePorts (VArray (map (fun i => VNumber (Num (Z.of_nat i))) (seq 0 21)))
  = Throw "Cannot scan more than 20 ports".
Proof. vm_compute. repeat split. Qed.


Lemma map_Number_VNumber (xs : list number) : map Number (map VNumber xs) = xs.
Proof. induction xs as [|x xs IH]; simpl; [reflexivity | rewrite IH; reflexivity]. Qed.

(** What a successful validation returns: a non-empty list of at most 20
    allowed ports without repetition. *)
Lemma validatePorts_Ok_inv (ports : value) (out : list number) :
  validatePorts ports = Ok out ->
  out <> [] /\ (length out <= 20)%nat /\ List.NoDup out /\
  (forall p, In p out -> In p ALLOWED_PORTS) /\
  exists elems, ports = VArray elems /\ out = first_occurrences (map Number elems).
Proof.
  intros Hok. destruct ports; try discriminate.
  pose proof (validatePorts_array_cases elems) as Hcases. cbv zeta in Hcases.
  destruct Hcases as [(_ & H) | [(_ & _ & H) | [(_ & _ & _ & H) | (Hne & Hle & Hall & H)]]];
    rewrite H in Hok; inversion Hok; subst out.
  repeat split; auto using first_occurrences_NoDup. eauto.
Qed.

(** C9: [validatePorts] applied to its own output succeeds with the same
    output. *)
Theorem validatePorts_idempotent (ports : value) (out : list number) :
  validatePorts ports = Ok out ->
  validatePorts (VArray (map VNumber out)) = Ok out.
Proof.
  intros Hok.
  destruct (validatePorts_Ok_inv ports out Hok) as (Hne & Hle & Hnd & Hall & _).
  pose proof (validatePorts_array_cases (map VNumber out)) as Hcases.
  cbv zeta in Hcases.
  rewrite map_Number_VNumber, (first_occurrences_fixed out Hnd) in Hcases.
  destruct Hcases as [(Hnil & _) | [(_ & Hgt & _) | [(_ & _ & (p & Hp & Hnot) & _) | (_ & _ & _ & H)]]].
  - contradiction.
  - lia.
  - exfalso. apply Hnot, Hall, Hp.
  - exact H.
Qed.

Lemma validatePorts_idempotent_witness :
  validatePorts ports_80_443_80 = Ok [Num 80; Num 443] /\
  validatePorts (VArray (map VNumber [Num 80; Num 443])) = Ok [Num 80; Num 443].
Proof.
  split; [reflexivity|].
  apply (validatePorts_idempotent ports_80_443_80 [Num 80; Num 443]).
  reflexivity.
Defined.

(** ** The rate limiter *)

Lemma or_zero_default (x : option Z) : or_zero x = default 0 x.
Proof.
  destruct x as [t|]; simpl; [|reflexivity].
  destruct (Z.eqb_spec t 0); congruence.
Qed.

Lemma enforceRateLimit_unfold (now : Z) (clientId : string) (m : gmap string Z) :
  enforceRateLimit now clientId m =
    if now - default 0 (m !! clientId) <? RATE_LIMIT_WINDOW_MS
    then (false, m)
    else (true, <[clientId := now]> m).
Proof. unfold enforceRateLimit. rewrite or_zero_default. reflexivity. Qed.

(** C5: on a clock that reads at least 10000 ms, as every clock does from
    ten seconds after the start of 1970 on, [enforceRateLimit] returns true
    and records [now] as the timestamp of the client exactly when the
    client has no record or at least 10000 ms have passed since its
    recorded timestamp; otherwise it returns false and leaves the map as it
    was. *)
Theorem enforceRateLimit_window (now : Z) (clientId : string) (m : gmap string Z) :
  RATE_LIMIT_WINDOW_MS <= now ->
  (fst (enforceRateLimit now clientId m) = true <->
     m !! clientId = None \/
     exists last, m !! clientId = Some last /\ RATE_LIMIT_WINDOW_MS <= now - last) /\
  (fst (enforceRateLimit now clientId m) = true ->
     snd (enforceRateLimit now clientId m) = <[clientId := now]> m /\
     snd (enforceRateLimit now clientId m) !! clientId = Some now) /\
  (fst (enforceRateLimit now clientId m) = false ->
     snd (enforceRateLimit now clientId m) = m).
Proof.
  intros Hclock. rewrite enforceRateLimit_unfold.
  destruct (Z.ltb_spec (now - default 0 (m !! clientId)) RATE_LIMIT_WINDOW_MS)
    as [Hlt|Hge]; simpl.
  - split; [|split].
    + split; [discriminate|].
      intros [Hnone | (last & Hlast & Hwin)].
      * rewrite Hnone in Hlt. simpl in Hlt. lia.
      * rewrite Hlast in Hlt. simpl in Hlt. lia.
    + discriminate.
    + reflexivity.
  - split; [|split].
    + split; [|reflexivity]. intros _.
      destruct (m !! clientId) as [last|]; [right | left; reflexivity].
      exists last. split; [reflexivity | exact Hge].
    + intros _. split; [reflexivity | apply lookup_insert_eq].
    + discriminate.
Qed.

Lemma enforceRateLimit_window_witness :
  enforceRateLimit 1700000000000 "203.0.113.9" ∅
  = (true, <["203.0.113.9" := 1700000000000]> ∅) /\
  enforceRateLimit 1700000003000 "203.0.113.9" (<["203.0.113.9" := 1700000000000]> ∅)
  = (false, <["203.0.113.9" := 1700000000000]> ∅).
Proof.
  assert (Hclock : RATE_LIMIT_WINDOW_MS <= 1700000000000) by (unfold RATE_LIMIT_WINDOW_MS; lia).
  destruct (enforceRateLimit_window 1700000000000 "203.0.113.9" ∅ Hclock)
    as (Hiff & Hrec & _).
  assert (Hadm : fst (enforceRateLimit 1700000000000 "203.0.113.9" ∅) = true)
    by (apply Hiff; left; reflexivity).
  destruct (Hrec Hadm) as [Hm _].
  split; [|reflexivity].
  destruct (enforceRateLimit 1700000000000 "203.0.113.9" ∅) as [a m'].
  simpl in Hadm, Hm. subst. reflexivity.
Defined.

(** ** The probe *)

(** Case analysis on the flags that a handler tests. *)
Ltac handler_cases :=
  repeat match goal with
         | |- context [if ?b then _ else _] => destruct b; simpl
         | |- context [match ?o with Pending => _ | _ => _ end] => destruct o; simpl
         end.

Section Handlers.

(** One probe: its start time and its port. *)
Variables (start : Z) (p : number).

(** The handlers never touch the timeout that [setTimeout] stored. *)
Lemma emit_socket_timeout (st : probe) (ev : socket_event) :
  socket_timeout (emit start p st ev) = socket_timeout st.
Proof.
  unfold emit, closeSocket, resolve.
  destruct st as [tmo dst rsv oc ot oe out], ev as [now| |err]; simpl;
    handler_cases; reflexivity.
Qed.

Lemma run_socket_timeout (evs : list socket_event) (st : probe) :
  socket_timeout (fold_left (emit start p) evs st) = socket_timeout st.
Proof.
  revert st. induction evs as [|ev evs IH]; intros st; simpl; [reflexivity|].
  rewrite IH. apply emit_socket_timeout.
Qed.

(** A settled promise stays as it is: a later [resolve] does nothing. *)
Lemma emit_fulfilled (st : probe) (ev : socket_event) (r : PortResult) :
  outcome st = Fulfilled r -> outcome (emit start p st ev) = Fulfilled r.
Proof.
  intros Hst. unfold emit, closeSocket, resolve.
  destruct st as [tmo dst rsv oc ot oe out]; simpl in Hst; subst out.
  destruct ev as [now| |err]; simpl; handler_cases; reflexivity.
Qed.

Lemma run_fulfilled (evs : list socket_event) (st : probe) (r : PortResult) :
  outcome st = Fulfilled r ->
  outcome (fold_left (emit start p) evs st) = Fulfilled r.
Proof.
  revert st. induction evs as [|ev evs IH]; intros st Hst; simpl; [exact Hst|].
  apply IH. apply emit_fulfilled. exact Hst.
Qed.

Lemma emit_outcome_port (st : probe) (ev : socket_event) :
  pending_or_for_port p st -> pending_or_for_port p (emit start p st ev).
Proof.
  unfold pending_or_for_port. intros [Hp | (r & Hr & Hport)].
  - unfold emit, closeSocket, resolve.
    destruct st as [tmo dst rsv oc ot oe out]; simpl in Hp; subst out.
    destruct ev as [now| |err]; simpl; handler_cases; eauto.
  - right. exists r. split; [|exact Hport]. apply emit_fulfilled. exact Hr.
Qed.

Lemma run_outcome_port (evs : list socket_event) (st : probe) :
  pending_or_for_port p st ->
  pending_or_for_port p (fold_left (emit start p) evs st).
Proof.
  revert st. induction evs as [|ev evs IH]; intros st Hst; simpl; [exact Hst|].
  apply IH. apply emit_outcome_port. exact Hst.
Qed.

End Handlers.

(** The timeout of the socket is the one that [setTimeout] was given. *)
Lemma performPortCheck_socket_timeout (connect : string -> number -> connection)
    (host : string) (p : number) (timeoutMs : option Z) :
  socket_timeout (performPortCheck connect host p timeoutMs)
  = Some (getTimerDuration (Z.max (default MIN_TIMEOUT_MS timeoutMs) MIN_TIMEOUT_MS)).
Proof.
  unfold performPortCheck.
  destruct (validatePort p); rewrite run_socket_timeout; destruct timeoutMs; reflexivity.
Qed.

Lemma socket_events_first (socket : probe) (conn : connection) (msecs : Z) :
  socket_timeout socket = Some msecs ->
  exists rest, socket_events socket conn = first_event msecs conn :: rest.
Proof.
  intros Ht. unfold socket_events, first_event. rewrite Ht.
  destruct (events conn) as [|ev evs]; [eauto|].
  destruct (msecs <=? quiet conn); eauto.
Qed.

(** The handler of the first event fulfils the promise. *)
Lemma emit_first_result (start : Z) (p : number) (st : probe) (ev : socket_event) :
  once_connect st = true -> once_timeout st = true -> once_error st = true ->
  outcome st = Pending ->
  outcome (emit start p st ev) = Fulfilled (first_result start p ev).
Proof.
  destruct st as [tmo dst rsv oc ot oe out]. simpl. intros -> -> -> ->.
  unfold emit, closeSocket, resolve.
  destruct ev as [now| |err]; simpl; [| |destruct (is_refused err); simpl];
    destruct rsv; reflexivity.
Qed.

(** On a port that [socket.connect] accepts, the promise is fulfilled with
    the result of the first event on the socket. *)
Lemma performPortCheck_first_event (connect : string -> number -> connection)
    (host : string) (p : number) (timeoutMs : option Z) :
  validatePort p = true ->
  outcome (performPortCheck connect host p timeoutMs)
  = Fulfilled
      (first_result (started (connect host p)) p
         (first_event
            (getTimerDuration (Z.max (default MIN_TIMEOUT_MS timeoutMs) MIN_TIMEOUT_MS))
            (connect host p))).
Proof.
  intros Hp. unfold performPortCheck. rewrite Hp.
  match goal with
  | |- context [socket_events ?socket ?conn] =>
      destruct (socket_events_first socket conn
                  (getTimerDuration
                     (Z.max (default MIN_TIMEOUT_MS timeoutMs) MIN_TIMEOUT_MS)))
        as [rest ->]; [destruct timeoutMs; reflexivity|]
  end.
  simpl fold_left. apply run_fulfilled. apply emit_first_result; reflexivity.
Qed.

(** On any other port, [socket.connect] throws and the promise is
    rejected. *)
Lemma performPortCheck_bad_port (connect : string -> number -> connection)
    (host : string) (p : number) (timeoutMs : option Z) :
  validatePort p = false ->
  outcome (performPortCheck connect host p timeoutMs) = Rejected (ERR_SOCKET_BAD_PORT p).
Proof.
  intros Hp. unfold performPortCheck. rewrite Hp. reflexivity.
Qed.

(** A result carries the port that was probed. *)
Lemma performPortCheck_outcome_port (connect : string -> number -> connection)
    (host : string) (p : number) (timeoutMs : option Z) (r : PortResult) :
  outcome (performPortCheck connect host p timeoutMs) = Fulfilled r -> port r = p.
Proof.
  destruct (validatePort p) eqn:Hp.
  - rewrite (performPortCheck_first_event _ _ _ _ Hp). intros [= <-].
    destruct (first_event _ _); reflexivity.
  - rewrite (performPortCheck_bad_port _ _ _ _ Hp). discriminate.
Qed.

(** The timer is set to at least one second. *)
Lemma getTimerDuration_floor (timeoutMs : Z) :
  getTimerDuration (Z.max timeoutMs MIN_TIMEOUT_MS)
  = Z.min (Z.max timeoutMs 1000) 2147483647 /\
  1000 <= getTimerDuration (Z.max timeoutMs MIN_TIMEOUT_MS).
Proof.
  unfold getTimerDuration, TIMEOUT_MAX, MIN_TIMEOUT_MS.
  destruct (Z.ltb_spec 2147483647 (Z.max timeoutMs 1000)); lia.
Qed.

(** Sample probes: an answer of the network before the timer is due
    decides the result, and a network that stays quiet gives filtered. *)
Lemma performPortCheck_samples :
  outcome (performPortCheck sample_network "93.184.216.34" (Num 443) None)
  = Fulfilled {| port := Num 443; status := open; latency_ms := Some 12 |} /\
  outcome (performPortCheck sample_network "93.184.216.34" (Num 80) (Some 5))
  = Fulfilled {| port := Num 80; status := closed; latency_ms := None |} /\
  outcome (performPortCheck silent_network "93.184.216.34" (Num 80) None)
  = Fulfilled {| port := Num 80; status := filtered; latency_ms := None |} /\
  outcome (performPortCheck slow_network "93.184.216.34" (Num 80) (Some 1500))
  = Fulfilled {| port := Num 80; status := filtered; latency_ms := None |} /\
  outcome (performPortCheck sample_network "93.184.216.34" NaN None)
  = Rejected "Port should be >= 0 and < 65536. Received type number (NaN).".
Proof. vm_compute. repeat split. Qed.

(** C4 (counterexample): for port 70000 [socket.connect] throws inside the
    executor, and the promise of the probe is rejected. *)
Lemma performPortCheck_rejects_bad_port :
  outcome (performPortCheck sample_network "93.184.216.34" (Num 70000) None)
  = Rejected "Port should be >= 0 and < 65536. Received type number (70000).".
Proof. vm_compute. reflexivity. Qed.

(** C4 (amended): for a port that is an integer from 0 to 65535, every call
    fulfils its promise, and never rejects it, with one [PortResult], that
    of the first event on the socket, which later events do not change.
    Its status is open, closed or filtered: open with the elapsed
    milliseconds as latency for a connect, closed for an error with code
    ECONNREFUSED, filtered for a timeout or any other error; and the
    latency is present exactly when the status is open. *)
Theorem performPortCheck_one_result (connect : string -> number -> connection)
    (host : string) (p : number) (timeoutMs : option Z) :
  validatePort p = true ->
  exists (r : PortResult) (ev : socket_event) (rest : list socket_event),
    socket_events (performPortCheck connect host p timeoutMs) (connect host p)
    = ev :: rest /\
    outcome (performPortCheck connect host p timeoutMs) = Fulfilled r /\
    port r = p /\
    (status r = open \/ status r = closed \/ status r = filtered) /\
    (forall now, ev = ev_connect now ->
       status r = open /\ latency_ms r = Some (now - started (connect host p))) /\
    (ev = ev_timeout -> status r = filtered) /\
    (forall e, ev = ev_error (Some e) -> err_code e = Some "ECONNREFUSED" ->
       status r = closed) /\
    (forall err, ev = ev_error err ->
       (forall e, err = Some e -> err_code e <> Some "ECONNREFUSED") ->
       status r = filtered) /\
    (is_Some (latency_ms r) <-> status r = open).
Proof.
  intros Hp.
  pose proof (performPortCheck_first_event connect host p timeoutMs Hp) as Hout.
  destruct (socket_events_first (performPortCheck connect host p timeoutMs)
              (connect host p) _
              (performPortCheck_socket_timeout connect host p timeoutMs))
    as [rest Hev].
  set (ev := first_event _ (connect host p)) in *.
  exists (first_result (started (connect host p)) p ev), ev, rest.
  split; [exact Hev|].
  split; [exact Hout|].
  split; [destruct ev; reflexivity|].
  split; [destruct ev as [now| |err]; simpl; auto; destruct (is_refused err); auto|].
  split; [intros now ->; split; reflexivity|].
  split; [intros ->; reflexivity|].
  split.
  { intros e -> Hcode. simpl. unfold is_refused. rewrite Hcode. reflexivity. }
  split.
  { intros err -> Hother. simpl.
    destruct err as [e|]; simpl; [|reflexivity].
    destruct (err_code e) as [c|] eqn:Hc; [|reflexivity].
    destruct (String.eqb_spec c "ECONNREFUSED") as [->|Hne]; [|reflexivity].
    exfalso. apply (Hother e); [reflexivity | exact Hc]. }
  destruct ev as [now| |err]; simpl.
  - split; [reflexivity | intros _; eexists; reflexivity].
  - split; [intros [x Hx]; discriminate | discriminate].
  - split; [intros [x Hx]; discriminate | destruct (is_refused err); discriminate].
Qed.

Lemma performPortCheck_one_result_witness :
  exists r : PortResult,
    outcome (performPortCheck refused_network "93.184.216.34" (Num 80) None) = Fulfilled r /\
    status r = closed /\ latency_ms r = None.
Proof.
  destruct (performPortCheck_one_result refused_network "93.184.216.34" (Num 80) None
              eq_refl)
    as (r & ev & rest & Hev & Hr & _ & _ & _ & _ & Hclosed & _ & Hlat).
  exists r. split; [exact Hr|].
  injection Hev as Hev _.
  pose proof (Hclosed _ (eq_sym Hev) eq_refl) as Hst.
  split; [exact Hst|].
  destruct (latency_ms r) as [l|] eqn:Hl; [|reflexivity].
  destruct Hlat as [Hlat _].
  assert (Hopen : status r = open) by (apply Hlat; eexists; reflexivity).
  rewrite Hst in Hopen. discriminate.
Defined.

(** C6 (counterexample): with a timeout of 3 000 000 000 ms requested, the
    timeout of the socket is 2 147 483 647 ms and not the larger of the
    request and 1000: a connection completed after 2 500 000 000 ms is
    reported as filtered. *)
Lemma performPortCheck_timeout_truncated :
  Z.max 3000000000 1000 = 3000000000 /\
  socket_timeout
    (performPortCheck slow_network "93.184.216.34" (Num 80) (Some 3000000000))
  = Some 2147483647 /\
  outcome (performPortCheck slow_network "93.184.216.34" (Num 80) (Some 3000000000))
  = Fulfilled {| port := Num 80; status := filtered; latency_ms := None |}.
Proof. repeat split. Qed.

(** C6 (amended): the timeout set on the socket is [max(timeoutMs, 1000)]
    milliseconds, cut down to 2 147 483 647 when it is larger; it is never
    below 1000 ms, and it is 1000 ms when the argument is omitted. It is
    the timeout that takes effect: on a port that [socket.connect] accepts,
    a network that answers before it decides the result, so that within the
    first 1000 ms no call times out, and a network that stays quiet for as
    long, or for ever, gives filtered. *)
Theorem performPortCheck_timeout_floor (connect : string -> number -> connection)
    (host : string) (p : number) :
  (forall timeoutMs : Z,
     socket_timeout (performPortCheck connect host p (Some timeoutMs))
     = Some (Z.min (Z.max timeoutMs 1000) 2147483647) /\
     1000 <= Z.min (Z.max timeoutMs 1000) 2147483647) /\
  socket_timeout (performPortCheck connect host p None) = Some 1000 /\
  (validatePort p = true ->
   forall (timeoutMs : option Z) (msecs : Z),
     socket_timeout (performPortCheck connect host p timeoutMs) = Some msecs ->
     (forall ev rest,
        events (connect host p) = ev :: rest -> quiet (connect host p) < msecs ->
        outcome (performPortCheck connect host p timeoutMs)
        = Fulfilled (first_result (started (connect host p)) p ev)) /\
     (forall ev rest,
        events (connect host p) = ev :: rest -> quiet (connect host p) < 1000 ->
        outcome (performPortCheck connect host p timeoutMs)
        = Fulfilled (first_result (started (connect host p)) p ev)) /\
     (events (connect host p) = [] \/ msecs <= quiet (connect host p) ->
      outcome (performPortCheck connect host p timeoutMs)
      = Fulfilled {| port := p; status := filtered; latency_ms := None |})).
Proof.
  split; [|split].
  - intros timeoutMs. rewrite performPortCheck_socket_timeout. simpl.
    destruct (getTimerDuration_floor timeoutMs) as [-> _].
    split; [reflexivity | lia].
  - rewrite performPortCheck_socket_timeout. reflexivity.
  - intros Hp timeoutMs msecs Hset.
    rewrite performPortCheck_socket_timeout in Hset. injection Hset as Hset.
    assert (Hfloor : 1000 <= msecs).
    { subst msecs. apply getTimerDuration_floor. }
    rewrite (performPortCheck_first_event connect host p timeoutMs Hp), Hset.
    unfold first_event.
    split; [|split].
    + intros ev rest -> Hq.
      destruct (Z.leb_spec msecs (quiet (connect host p))); [lia | reflexivity].
    + intros ev rest -> Hq.
      destruct (Z.leb_spec msecs (quiet (connect host p))); [lia | reflexivity].
    + intros [-> | Hq]; [reflexivity|].
      destruct (events (connect host p)); [reflexivity|].
      destruct (Z.leb_spec msecs (quiet (connect host p))); [reflexivity | lia].
Qed.

(** ** The request handler *)

(** The loop pushes one result per port, in the order of the ports. *)
Lemma scan_ports_order (w : world) (addr : string) (ports : list number)
    (acc rs : list PortResult) :
  scan_ports w addr ports acc = Fulfilled rs ->
  map port rs = (map port acc ++ ports)%list.
Proof.
  revert acc. induction ports as [|p ports IH]; intros acc Hrs; simpl in Hrs.
  - inversion Hrs. rewrite app_nil_r. reflexivity.
  - destruct (outcome (performPortCheck (socket_connect w) addr p None)) as [|r|msg] eqn:Hr;
      try discriminate.
    simpl in Hrs. apply IH in Hrs. rewrite Hrs, map_app. simpl.
    rewrite (performPortCheck_outcome_port _ _ _ _ _ Hr), <- app_assoc.
    reflexivity.
Qed.

(** A fulfilled [try] block went through every step. *)
Lemma scan_admitted_Fulfilled (w : world) (req : request) (scan : ScanResult) :
  scan_admitted w req = Fulfilled scan ->
  exists payload target ports validated rt,
    JSON_parse w (body_text req) = Ok payload /\
    destructure payload = Ok (target, ports) /\
    validatePorts ports = Ok validated /\
    resolveTarget (dns_lookup w) target = Ok rt /\
    scan_ports w (address rt) validated [] = Fulfilled (results scan) /\
    scan_target scan = hostname rt /\ scan_ip scan = address rt.
Proof.
  unfold scan_admitted. intros H.
  destruct (JSON_parse w (body_text req)) as [payload|] eqn:Hparse; [|discriminate].
  simpl in H.
  destruct (destructure payload) as [[target ports]|] eqn:Hd; [|discriminate].
  simpl in H.
  destruct (validatePorts ports) as [validated|] eqn:Hv; [|discriminate].
  simpl in H.
  destruct (resolveTarget (dns_lookup w) target) as [rt|] eqn:Hrt; [|discriminate].
  simpl in H.
  destruct (scan_ports w (address rt) validated []) as [|rs|] eqn:Hscan; try discriminate.
  simpl in H. inversion H; subst scan; simpl.
  exists payload, target, ports, validated, rt. repeat split; auto.
Qed.

(** A response of the handler with a scan in its body comes from a fulfilled
    [try] block. *)
Lemma handleScan_ScanBody (w : world) (req : request) (m m' : gmap string Z)
    (resp : response) (scan : ScanResult) :
  handleScan w req m = (Some resp, m') ->
  body resp = ScanBody scan ->
  scan_admitted w req = Fulfilled scan /\ statusCode resp = 200.
Proof.
  unfold handleScan. intros H Hbody.
  destruct (enforceRateLimit (Date_now w) (client_id req) m) as [admitted m1].
  destruct admitted; simpl in H.
  - destruct (scan_admitted w req) as [|scan'|msg]; inversion H; subst; simpl in *.
    + inversion Hbody. auto.
    + discriminate.
  - inversion H; subst. discriminate.
Qed.

(** C8: a successful scan answers with one [PortResult] per validated port,
    in the order of the validated ports, which is the first-occurrence order
    of the requested ports. *)
Theorem handleScan_results_in_request_order (w : world) (req : request)
    (m m' : gmap string Z) (resp : response) (scan : ScanResult) :
  handleScan w req m = (Some resp, m') ->
  body resp = ScanBody scan ->
  exists payload target elems validated,
    JSON_parse w (body_text req) = Ok payload /\
    destructure payload = Ok (target, VArray elems) /\
    validatePorts (VArray elems) = Ok validated /\
    validated = first_occurrences (map Number elems) /\
    map port (results scan) = validated /\
    length (results scan) = length validated.
Proof.
  intros H Hbody.
  destruct (handleScan_ScanBody _ _ _ _ _ _ H Hbody) as [Hscan _].
  destruct (scan_admitted_Fulfilled _ _ _ Hscan)
    as (payload & target & ports & validated & rt & Hp & Hd & Hv & _ & Hloop & _).
  destruct (validatePorts_Ok_inv _ _ Hv) as (_ & _ & _ & _ & elems & -> & Hout).
  apply scan_ports_order in Hloop. simpl in Hloop.
  exists payload, target, elems, validated. repeat split; auto.
  rewrite <- Hloop, length_map. reflexivity.
Qed.

Lemma handleScan_results_in_request_order_witness :
  handleScan sample_world sample_request ∅
  = (Some {| statusCode := 200;
             headers := corsHeaders [("Content-Type", "application/json")];
             body := ScanBody sample_scan |},
     <["203.0.113.9" := 1700000000000]> ∅) /\
  map port (results sample_scan) = [Num 443; Num 80].
Proof.
  assert (Hrun : handleScan sample_world sample_request ∅
                 = (Some {| statusCode := 200;
                            headers := corsHeaders [("Content-Type", "application/json")];
                            body := ScanBody sample_scan |},
                    <["203.0.113.9" := 1700000000000]> ∅)) by reflexivity.
  split; [exact Hrun|].
  destruct (handleScan_results_in_request_order sample_world sample_request ∅ _ _
              sample_scan Hrun eq_refl)
    as (payload & target & elems & validated & Hp & Hd & _ & Hv & Hmap & _).
  simpl in Hp. inversion Hp; subst payload.
  simpl in Hd. inversion Hd; subst target elems.
  rewrite Hmap, Hv. reflexivity.
Defined.

(** A request that is not admitted is answered 429 and leaves the map as it
    was. *)
Lemma handleScan_rate_limited (w : world) (req : request) (m : gmap string Z) :
  fst (enforceRateLimit (Date_now w) (client_id req) m) = false ->
  handleScan w req m = (Some too_many_requests, m).
Proof.
  unfold handleScan. rewrite enforceRateLimit_unfold.
  destruct (Date_now w - default 0 (m !! client_id req) <? RATE_LIMIT_WINDOW_MS);
    simpl; [reflexivity | discriminate].
Qed.

(** An admitted request leaves the client's timestamp at the request time,
    whatever happens after admission. *)
Lemma handleScan_admitted_state (w : world) (req : request) (m : gmap string Z) :
  fst (enforceRateLimit (Date_now w) (client_id req) m) = true ->
  snd (handleScan w req m) = <[client_id req := Date_now w]> m.
Proof.
  unfold handleScan. rewrite enforceRateLimit_unfold.
  destruct (Date_now w - default 0 (m !! client_id req) <? RATE_LIMIT_WINDOW_MS);
    simpl; [discriminate|]. intros _.
  destruct (scan_admitted w req); reflexivity.
Qed.

(** A failed validation rejects the [try] block. *)
Lemma scan_admitted_validation_fails (w : world) (req : request)
    (payload target ports : value) (message : string) :
  JSON_parse w (body_text req) = Ok payload ->
  destructure payload = Ok (target, ports) ->
  validatePorts ports = Throw message \/
  resolveTarget (dns_lookup w) target = Throw message ->
  exists e, scan_admitted w req = Rejected e.
Proof.
  intros Hp Hd Hfail. unfold scan_admitted. rewrite Hp. simpl. rewrite Hd. simpl.
  destruct (validatePorts ports) as [validated|e] eqn:Hv; simpl.
  - destruct Hfail as [Hfail | Hfail]; [discriminate|].
    rewrite Hfail. simpl. eexists. reflexivity.
  - eexists. reflexivity.
Qed.

(** C10: a request that is admitted and then fails port or target
    validation is answered with an error and no scan, yet leaves the
    client's timestamp at the request time; a request of the same client
    less than 10000 ms later is answered 429 and changes nothing. *)
Theorem handleScan_failed_validation_consumes_window (w w' : world) (req req' : request)
    (m : gmap string Z) (payload target ports : value) (message : string) :
  fst (enforceRateLimit (Date_now w) (client_id req) m) = true ->
  JSON_parse w (body_text req) = Ok payload ->
  destructure payload = Ok (target, ports) ->
  validatePorts ports = Throw message \/
  resolveTarget (dns_lookup w) target = Throw message ->
  client_id req' = client_id req ->
  Date_now w' - Date_now w < RATE_LIMIT_WINDOW_MS ->
  (exists resp e, fst (handleScan w req m) = Some resp /\ body resp = ErrorBody e /\
                  (statusCode resp = 400 \/ statusCode resp = 429)) /\
  snd (handleScan w req m) !! client_id req = Some (Date_now w) /\
  handleScan w' req' (snd (handleScan w req m))
  = (Some too_many_requests, snd (handleScan w req m)).
Proof.
  intros Hadmit Hp Hd Hfail Hclient Hsoon.
  destruct (scan_admitted_validation_fails w req payload target ports message Hp Hd Hfail)
    as [e He].
  pose proof (handleScan_admitted_state w req m Hadmit) as Hstate.
  split; [|split].
  - unfold handleScan.
    destruct (enforceRateLimit (Date_now w) (client_id req) m) as [admitted m1].
    simpl in Hadmit. subst admitted. simpl. rewrite He. simpl.
    eexists. eexists. split; [reflexivity|]. split; [reflexivity|].
    destruct (includes "rate" e); auto.
  - rewrite Hstate. apply lookup_insert_eq.
  - apply handleScan_rate_limited. rewrite Hclient, Hstate, enforceRateLimit_unfold.
    rewrite lookup_insert_eq. simpl.
    destruct (Z.ltb_spec (Date_now w' - Date_now w) RATE_LIMIT_WINDOW_MS) as [_|Hge];
      [reflexivity | lia].
Qed.

Lemma handleScan_failed_validation_consumes_window_witness :
  snd (handleScan (bad_ports_world 1700000000000) sample_request ∅) !! "203.0.113.9"
  = Some 1700000000000 /\
  handleScan (bad_ports_world 1700000003000) sample_request
    (snd (handleScan (bad_ports_world 1700000000000) sample_request ∅))
  = (Some too_many_requests,
     snd (handleScan (bad_ports_world 1700000000000) sample_request ∅)).
Proof.
  apply (handleScan_failed_validation_consumes_window
           (bad_ports_world 1700000000000) (bad_ports_world 1700000003000)
           sample_request sample_request ∅
           (VObject [ ("target", VString "8.8.8.8");
                      ("ports", VArray [VNumber (Num 9999)]) ])
           (VString "8.8.8.8") (VArray [VNumber (Num 9999)])
           "Ports must be in the allowed list").
  - reflexivity.
  - reflexivity.
  - reflexivity.
  - left. reflexivity.
  - reflexivity.
  - simpl. unfold RATE_LIMIT_WINDOW_MS. lia.
Defined.

(** ** Domain names *)

Lemma lang_Eps_Seq (r : regex) (s : string) : lang (Seq Eps r) s <-> lang r s.
Proof.
  simpl. split.
  - intros (u & v & -> & -> & Hv). exact Hv.
  - intros H. exists "", s. auto.
Qed.

Lemma lang_Class_Seq (ranges : list (nat * nat)) (r : regex) (s : string) :
  lang (Seq (Class ranges) r) s <->
  exists c s', s = String c s' /\ in_class ranges c = true /\ lang r s'.
Proof.
  simpl. split.
  - intros (u & v & -> & (c & -> & Hc) & Hv). exists c, v. auto.
  - intros (c & s' & -> & Hc & Hs'). exists (String c ""), s'. eauto.
Qed.

Lemma lang_Alt (a b : regex) (s : string) : lang (Alt a b) s <-> lang a s \/ lang b s.
Proof. reflexivity. Qed.

Lemma lang_And (a b : regex) (s : string) : lang (And a b) s <-> lang a s /\ lang b s.
Proof. reflexivity. Qed.

Lemma lang_Not (a : regex) (s : string) : lang (Not a) s <-> ~ lang a s.
Proof. reflexivity. Qed.

(** [C{0,k}] for a class [C]. *)
Lemma lang_upto_Class (ranges : list (nat * nat)) (k : nat) (s : string) :
  lang (upto k (Class ranges)) s <->
  (String.length s <= k)%nat /\ all_chars_of (in_class ranges) s = true.
Proof.
  revert s. induction k as [|k IH]; intros s.
  - simpl. split.
    + intros ->. simpl. auto.
    + intros [Hlen _]. destruct s; [reflexivity | simpl in Hlen; lia].
  - change (upto (S k) (Class ranges))
      with (Alt Eps (Seq (Class ranges) (upto k (Class ranges)))).
    rewrite lang_Alt, lang_Class_Seq. split.
    + intros [Hnil | (c & s' & -> & Hc & Hs')];
        [simpl in Hnil; subst s; simpl; split; [lia | reflexivity]|].
      apply IH in Hs'. destruct Hs' as [Hlen Hall]. simpl. rewrite Hc, Hall.
      split; [lia | reflexivity].
    + destruct s as [|c s']; [intros _; left; reflexivity|]. simpl.
      rewrite andb_true_iff.
      intros [Hlen [Hc Hall]]. right. exists c, s'.
      split; [reflexivity|]. split; [exact Hc|]. apply IH. split; [lia | exact Hall].
Qed.

(** [C{n,n+k}] for a class [C]. *)
Lemma lang_times_upto_Class (ranges : list (nat * nat)) (n k : nat) (s : string) :
  lang (Seq (times n (Class ranges)) (upto k (Class ranges))) s <->
  (n <= String.length s <= n + k)%nat /\ all_chars_of (in_class ranges) s = true.
Proof.
  revert s. induction n as [|n IH]; intros s.
  - change (times 0 (Class ranges)) with Eps.
    rewrite lang_Eps_Seq, lang_upto_Class. split; intros [H1 H2]; split; auto; lia.
  - assert (Hassoc : lang (Seq (times (S n) (Class ranges)) (upto k (Class ranges))) s <->
                     lang (Seq (Class ranges)
                             (Seq (times n (Class ranges)) (upto k (Class ranges)))) s).
    { change (times (S n) (Class ranges))
        with (Seq (Class ranges) (times n (Class ranges))).
      cbn [lang]. split.
      - intros (u & v & -> & (u1 & u2 & -> & Hu1 & Hu2) & Hv).
        exists u1, (u2 ++ v). rewrite append_assoc. split; [reflexivity|].
        split; [exact Hu1|]. exists u2, v. auto.
      - intros (u1 & w & -> & Hu1 & (u2 & v & -> & Hu2 & Hv)).
        exists (u1 ++ u2), v. rewrite append_assoc. split; [reflexivity|].
        split; [|exact Hv]. exists u1, u2. auto. }
    rewrite Hassoc, lang_Class_Seq. split.
    + intros (c & s' & -> & Hc & Hs'). apply IH in Hs'. destruct Hs' as [Hlen Hall].
      simpl. rewrite Hc, Hall. split; [lia | reflexivity].
    + destruct s as [|c s']; [simpl; lia|]. simpl. rewrite andb_true_iff.
      intros [Hlen [Hc Hall]]. exists c, s'.
      split; [reflexivity|]. split; [exact Hc|]. apply IH. split; [lia | exact Hall].
Qed.

Lemma lang_Star_any (s : string) : lang (Star any) s.
Proof.
  induction s as [|c s IH]; [constructor|].
  change (String c s) with (String c "" ++ s). constructor; [|exact IH].
  exists c. split; [reflexivity|].
  unfold in_class, between. simpl. rewrite orb_false_r.
  pose proof (nat_ascii_bounded c). unfold code.
  apply Nat.leb_le. lia.
Qed.

Lemma lang_starts_with (c : ascii) (s : string) :
  lang (Seq (chr c) (Star any)) s <-> startsWith (String c "") s = true.
Proof.
  unfold chr. rewrite lang_Class_Seq. split.
  - intros (x & s' & -> & Hx & _). apply in_class_chr in Hx. subst x.
    simpl. rewrite Ascii.eqb_refl. reflexivity.
  - destruct s as [|x s']; simpl; [discriminate|].
    rewrite andb_true_r. intros Hx. apply Ascii.eqb_eq in Hx. subst x.
    exists c, s'. split; [reflexivity|]. split; [|apply lang_Star_any].
    unfold in_class, between. simpl. rewrite !Nat.leb_refl. reflexivity.
Qed.

Lemma ends_with_char_app (c : ascii) (u : string) :
  ends_with_char c (u ++ String c "") = true.
Proof.
  induction u as [|x u IH]; simpl; [apply Ascii.eqb_refl|].
  destruct (u ++ String c "") eqn:Hu; [destruct u; discriminate | exact IH].
Qed.

Lemma ends_with_char_inv (c : ascii) (s : string) :
  ends_with_char c s = true -> exists u, s = u ++ String c "".
Proof.
  induction s as [|x s IH]; simpl; [discriminate|].
  destruct s as [|y s'].
  - intros Hx. apply Ascii.eqb_eq in Hx. subst x. exists "". reflexivity.
  - intros H. destruct (IH H) as [u Hu]. exists (String x u).
    simpl. rewrite <- Hu. reflexivity.
Qed.

Lemma lang_ends_with (c : ascii) (s : string) :
  lang (Seq (Star any) (chr c)) s <-> ends_with_char c s = true.
Proof.
  simpl. split.
  - intros (u & v & -> & _ & Hv). apply lang_chr in Hv. subst v.
    apply ends_with_char_app.
  - intros H. destruct (ends_with_char_inv c s H) as [u ->].
    exists u, (String c ""). split; [reflexivity|].
    split; [apply lang_Star_any | apply lang_chr_intro].
Qed.

(** The label pattern with its two look-arounds. *)
Lemma lang_label (l : string) : lang label l <-> valid_label l = true.
Proof.
  unfold label, valid_label, repeat_range.
  change (63 - 1)%nat with 62%nat.
  rewrite !lang_And, !lang_Not.
  unfold label_char. rewrite lang_times_upto_Class, lang_starts_with, lang_ends_with.
  fold is_label_char.
  rewrite !andb_true_iff, !negb_true_iff, !Nat.leb_le.
  change (all_chars_of (in_class [(65, 90); (97, 122); (48, 57); (45, 45)]%nat) l)
    with (all_chars_of is_label_char l).
  destruct (startsWith "-" l), (ends_with_char "-" l); intuition (try congruence; try lia).
Qed.

(** A run of dot-and-label pieces. *)
Lemma lang_dotted_tail (v : string) :
  star (lang (Seq (chr ".") label)) v <->
  exists labels, v = dotted_tail labels /\ forallb valid_label labels = true.
Proof.
  split.
  - induction 1 as [|u v Hu Hv IH].
    + exists []. auto.
    + destruct IH as (labels & -> & Hall).
      destruct Hu as (d & l & -> & Hd & Hl). apply lang_chr in Hd. subst d.
      apply lang_label in Hl. exists (l :: labels).
      split; [reflexivity | simpl; rewrite Hl, Hall; reflexivity].
  - intros (labels & -> & Hall). induction labels as [|l labels IH]; simpl.
    + constructor.
    + simpl in Hall. apply andb_true_iff in Hall. destruct Hall as [Hl Hall].
      change (String "." (l ++ dotted_tail labels))
        with (String "." "" ++ (l ++ dotted_tail labels)).
      rewrite <- append_assoc. constructor; [|apply IH; exact Hall].
      exists ".", l. split; [reflexivity|].
      split; [apply lang_chr_intro | apply lang_label; exact Hl].
Qed.

Lemma lang_domainRegex (s : string) :
  lang domainRegex s <->
  exists l labels,
    s = l ++ dotted_tail labels /\ labels <> [] /\
    valid_label l = true /\ forallb valid_label labels = true.
Proof.
  unfold domainRegex, plus. split.
  - intros (l & v & -> & Hl & (u & v' & -> & Hu & Hv')).
    apply lang_label in Hl. apply lang_dotted_tail in Hv'.
    destruct Hv' as (labels & -> & Hall).
    destruct Hu as (d & l1 & -> & Hd & Hl1). apply lang_chr in Hd. subst d.
    apply lang_label in Hl1. exists l, (l1 :: labels).
    split; [reflexivity|]. split; [discriminate|]. split; [exact Hl|].
    simpl. rewrite Hl1, Hall. reflexivity.
  - intros (l & labels & -> & Hne & Hl & Hall).
    destruct labels as [|l1 labels]; [congruence|].
    simpl in Hall. apply andb_true_iff in Hall. destruct Hall as [Hl1 Hall].
    exists l, (dotted_tail (l1 :: labels)). split; [reflexivity|].
    split; [apply lang_label; exact Hl|].
    exists (String "." l1), (dotted_tail labels). simpl.
    split; [reflexivity|]. split.
    + exists ".", l1. split; [reflexivity|].
      split; [apply lang_chr_intro | apply lang_label; exact Hl1].
    + apply lang_dotted_tail. exists labels. auto.
Qed.

(** A label has no dot. *)
Lemma label_chars_no_dot (l : string) :
  all_chars_of is_label_char l = true -> contains_char "." l = false.
Proof.
  induction l as [|c l IH]; simpl; [reflexivity|].
  rewrite andb_true_iff. intros [Hc Hl]. rewrite (IH Hl), orb_false_r.
  destruct (Ascii.eqb_spec c "."); [subst c; discriminate Hc | reflexivity].
Qed.

Lemma valid_label_no_dot (l : string) :
  valid_label l = true -> contains_char "." l = false.
Proof.
  unfold valid_label. rewrite !andb_true_iff. intros [[[_ Hall] _] _].
  apply label_chars_no_dot. exact Hall.
Qed.

(** [split] undoes the joining of dot-free pieces, and a string is its
    pieces joined by dots. *)
Lemma split_dotted_tail (l : string) (labels : list string) :
  contains_char "." l = false ->
  forallb (fun t => negb (contains_char "." t)) labels = true ->
  split "." (l ++ dotted_tail labels) = l :: labels.
Proof.
  revert l. induction labels as [|l1 labels IH]; intros l Hl Hall; simpl.
  - rewrite append_nil_r. apply split_no_dot. exact Hl.
  - simpl in Hall. apply andb_true_iff in Hall. destruct Hall as [Hl1 Hall].
    apply negb_true_iff in Hl1.
    rewrite (split_dot_app l _ Hl), (IH l1 Hl1 Hall). reflexivity.
Qed.

Lemma split_pieces (s : string) :
  exists l labels,
    split "." s = l :: labels /\ s = l ++ dotted_tail labels.
Proof.
  induction s as [|c s (l & labels & Hsplit & Hs)].
  - exists "", []. auto.
  - simpl. destruct (Ascii.eqb_spec c ".") as [->|Hc].
    + exists "", (l :: labels). rewrite Hsplit. simpl. rewrite <- Hs. auto.
    + rewrite Hsplit. exists (String c l), labels. simpl. rewrite <- Hs. auto.
Qed.

(** X1: [isValidDomain] accepts exactly the strings made of two or more
    labels joined by dots, a label being 1 to 63 letters, digits and
    hyphens that neither starts nor ends with a hyphen. *)
Theorem isValidDomain_shape (s : string) : isValidDomain s = domain_shape s.
Proof.
  apply eq_true_iff_eq. unfold isValidDomain. rewrite test_lang, lang_domainRegex.
  unfold domain_shape. cbv zeta. rewrite andb_true_iff, Nat.leb_le. split.
  - intros (l & labels & -> & Hne & Hl & Hall).
    rewrite split_dotted_tail.
    + simpl. rewrite Hl, Hall. destruct labels; [congruence|]. simpl. split; [lia | reflexivity].
    + apply valid_label_no_dot. exact Hl.
    + rewrite forallb_forall in *. intros t Ht.
      rewrite (valid_label_no_dot t (Hall t Ht)). reflexivity.
  - intros [Hlen Hall].
    destruct (split_pieces s) as (l & labels & Hsplit & Hs).
    rewrite Hsplit in Hlen, Hall. simpl in Hlen, Hall.
    apply andb_true_iff in Hall. destruct Hall as [Hl Hall].
    exists l, labels. repeat split; auto.
    destruct labels; [simpl in Hlen; lia | discriminate].
Qed.

(** ** More on target resolution *)

(** The classifiers return normally on a string. *)
Lemma isPrivateIpv4_Some_Ok (s : string) : exists b, isPrivateIpv4 (Some s) = Ok b.
Proof.
  unfold isPrivateIpv4. cbv zeta.
  repeat match goal with
         | |- context [if ?b then _ else _] => destruct b
         end; eauto.
Qed.

Lemma isPrivateIpv6_Some_Ok (s : string) : exists b, isPrivateIpv6 (Some s) = Ok b.
Proof.
  unfold isPrivateIpv6. cbv zeta.
  repeat match goal with
         | |- context [if ?b then _ else _] => destruct b
         end; eauto.
Qed.

Lemma isPrivateIp_Some_Ok (s : string) : exists b, isPrivateIp (Some s) = Ok b.
Proof.
  unfold isPrivateIp. destruct (negb (truthy (Some s))); [eauto|].
  destruct (net_isIP (Some s) =? 4); [apply isPrivateIpv4_Some_Ok|].
  destruct (net_isIP (Some s) =? 6); [apply isPrivateIpv6_Some_Ok | eauto].
Qed.

Lemma find_public_Ok (addresses : list LookupAddress) :
  exists found, find_public addresses = Ok found.
Proof.
  induction addresses as [|e rest IH]; simpl; [eauto|].
  destruct (isPrivateIp_Some_Ok (entry_address e)) as [b ->]. simpl.
  destruct b; simpl; eauto.
Qed.

(** An error of [resolveTarget] is one of its own or the rejection of the
    lookup. *)
Lemma resolveTarget_Throw (dns : string -> result (list LookupAddress))
    (target : value) (message : string) :
  resolveTarget dns target = Throw message ->
  InvalidTarget message \/ exists name, dns name = Throw message.
Proof.
  unfold resolveTarget, InvalidTarget. intros H.
  assert (Hown : forall own, In own [ "Target is required"; "Localhost is not allowed";
                                      "Private IPs are not allowed"; "Invalid domain name";
                                      "Target resolves to a private IP" ] ->
                 @Throw ResolvedTarget own = Throw message ->
                 In message [ "Target is required"; "Localhost is not allowed";
                              "Private IPs are not allowed"; "Invalid domain name";
                              "Target resolves to a private IP" ]).
  { intros own Hin [= <-]. exact Hin. }
  destruct target as [| | | |[|c t]| |];
    try (left; apply (Hown _ (or_introl eq_refl) H)).
  set (trimmed := trim (String c t)) in *.
  destruct (String.eqb (toLowerCase trimmed) "localhost");
    [left; apply (Hown "Localhost is not allowed"); [simpl; auto | exact H]|].
  destruct (negb (net.isIP trimmed =? 0)).
  - destruct (isPrivateIp_Some_Ok trimmed) as [b Hb]. rewrite Hb in H.
    destruct b; [|discriminate H].
    left. apply (Hown "Private IPs are not allowed"); [simpl; auto | exact H].
  - destruct (negb (isValidDomain trimmed));
      [left; apply (Hown "Invalid domain name"); [simpl; auto | exact H]|].
    destruct (dns trimmed) as [addresses|msg] eqn:Hdns.
    + destruct (find_public_Ok addresses) as [found Hf].
      change (match find_public addresses with
              | Ok publicAddress =>
                  match publicAddress with
                  | Some entry =>
                      Ok {| hostname := trimmed; address := entry_address entry |}
                  | None => Throw "Target resolves to a private IP"
                  end
              | Throw m => Throw m
              end = Throw message) in H.
      rewrite Hf in H. destruct found; [discriminate H|].
      left. apply (Hown "Target resolves to a private IP"); [simpl; auto 6 | exact H].
    + right. exists trimmed. rewrite Hdns. injection H as ->. reflexivity.
Qed.

Lemma eqb_toLowerCase_ci (p s : string) :
  all_chars_of plain_char p = true ->
  String.eqb (toLowerCase s) p = equal_ci p s.
Proof.
  revert s. induction p as [|a p IH]; intros s Hp; [destruct s; reflexivity|].
  simpl in Hp. apply andb_true_iff in Hp. destruct Hp as [Ha Hp].
  destruct s as [|x s]; simpl; [reflexivity|].
  rewrite Ascii.eqb_sym, (lower_char_ci a x Ha), (IH s Hp). reflexivity.
Qed.

(** X2: a target that reads "localhost" in any mix of upper and lower case,
    with or without white space around it, is refused. *)
Theorem resolveTarget_localhost (dns : string -> result (list LookupAddress))
    (target : string) :
  equal_ci "localhost" (trim target) = true ->
  resolveTarget dns (VString target) = Throw "Localhost is not allowed".
Proof.
  intros Hci. unfold resolveTarget.
  destruct target as [|c t]; [discriminate Hci|].
  rewrite (eqb_toLowerCase_ci "localhost") by reflexivity.
  rewrite Hci. reflexivity.
Qed.

Lemma resolveTarget_localhost_witness :
  resolveTarget sample_dns (VString "  LocalHOST ") = Throw "Localhost is not allowed".
Proof. apply resolveTarget_localhost. reflexivity. Defined.

Lemma empty_lang_sound (r : regex) (s : string) : empty_lang r = true -> ~ lang r s.
Proof.
  revert s. induction r as [| |ranges|a IHa b IHb|a IHa b IHb|a IHa|a IHa b IHb|a IHa];
    intros s; simpl; try discriminate.
  - tauto.
  - destruct ranges; [|discriminate]. intros _ (c & _ & Hc). discriminate.
  - rewrite orb_true_iff. intros [H | H] (u & v & _ & Hu & Hv);
      [eapply IHa | eapply IHb]; eauto.
  - rewrite andb_true_iff. intros [Ha Hb] [H | H]; [eapply IHa | eapply IHb]; eauto.
  - rewrite orb_true_iff. intros [H | H] [Ha Hb]; [eapply IHa | eapply IHb]; eauto.
Qed.

(** No IP literal starts with an L. *)
Lemma isIP_first_char_table :
  forallb (fun c =>
             implb (Ascii.eqb (lower_char c) "l")
                   (empty_lang (deriv c net.IPv4Reg) && empty_lang (deriv c net.IPv6Reg)))
          all_chars = true.
Proof. vm_compute. reflexivity. Qed.

Lemma isIP_localhost (s : string) :
  String.eqb (toLowerCase s) "localhost" = true -> net.isIP s = 0.
Proof.
  destruct s as [|c s]; [discriminate|]. simpl.
  destruct (Ascii.eqb (lower_char c) "l") eqn:Hc; [intros _ | discriminate].
  pose proof isIP_first_char_table as Htab. rewrite forallb_forall in Htab.
  specialize (Htab c (all_chars_complete c)). rewrite Hc in Htab. cbn [implb] in Htab.
  apply andb_true_iff in Htab. destruct Htab as [H4 H6].
  unfold net.isIP, net.isIPv4, net.isIPv6.
  assert (T4 : test net.IPv4Reg (String c s) = false).
  { destruct (test net.IPv4Reg (String c s)) eqn:E; [|reflexivity].
    apply test_lang in E. apply (proj2 (deriv_lang c _ s)) in E.
    exfalso. exact (empty_lang_sound _ _ H4 E). }
  assert (T6 : test net.IPv6Reg (String c s) = false).
  { destruct (test net.IPv6Reg (String c s)) eqn:E; [|reflexivity].
    apply test_lang in E. apply (proj2 (deriv_lang c _ s)) in E.
    exfalso. exact (empty_lang_sound _ _ H6 E). }
  rewrite T4, T6. reflexivity.
Qed.

(** X3: for a target that is an IP literal once trimmed, the outcome does
    not depend on the resolver: the literal is refused when [isPrivateIp]
    classifies it as private, and otherwise it is returned, trimmed, as both
    hostname and address. *)
Theorem resolveTarget_literal (dns : string -> result (list LookupAddress))
    (target : string) :
  net.isIP (trim target) <> 0 ->
  (isPrivateIp (Some (trim target)) = Ok true /\
   resolveTarget dns (VString target) = Throw "Private IPs are not allowed") \/
  (isPrivateIp (Some (trim target)) = Ok false /\
   resolveTarget dns (VString target)
   = Ok {| hostname := trim target; address := trim target |}).
Proof.
  intros Hip. unfold resolveTarget.
  destruct target as [|c t]; [exfalso; apply Hip; reflexivity|].
  set (trimmed := trim (String c t)) in *.
  destruct (String.eqb (toLowerCase trimmed) "localhost") eqn:Hloc;
    [apply isIP_localhost in Hloc; contradiction|].
  destruct (Z.eqb_spec (net.isIP trimmed) 0) as [|_]; [contradiction|]. simpl.
  destruct (isPrivateIp_Some_Ok trimmed) as [b Hb]. rewrite Hb.
  destruct b; [left | right]; split; reflexivity.
Qed.

Lemma resolveTarget_literal_witness :
  resolveTarget sample_dns (VString " 93.184.216.34 ")
  = Ok {| hostname := "93.184.216.34"; address := "93.184.216.34" |}.
Proof.
  destruct (resolveTarget_literal sample_dns " 93.184.216.34 ")
    as [[Hp _] | [_ Hr]]; [vm_compute; discriminate | | exact Hr].
  vm_compute in Hp. discriminate Hp.
Defined.

Lemma contains_char_app (c : ascii) (u v : string) :
  contains_char c (u ++ v) = contains_char c u || contains_char c v.
Proof.
  induction u as [|x u IH]; simpl; [reflexivity|].
  rewrite IH, orb_assoc. reflexivity.
Qed.

Lemma contains_char_toLowerCase (c : ascii) (s : string) :
  caseless_char c = true ->
  contains_char c (toLowerCase s) = contains_char c s.
Proof.
  intros Hc. induction s as [|x s IH]; simpl; [reflexivity|].
  rewrite (lower_char_caseless c x Hc), IH. reflexivity.
Qed.

(** A domain name has a dot, so it is not "localhost". *)
Lemma isValidDomain_not_localhost (s : string) :
  isValidDomain s = true -> String.eqb (toLowerCase s) "localhost" = false.
Proof.
  unfold isValidDomain. rewrite test_lang, lang_domainRegex.
  intros (l & labels & -> & Hne & _ & _).
  destruct (String.eqb_spec (toLowerCase (l ++ dotted_tail labels)) "localhost")
    as [Heq|]; [|reflexivity].
  assert (Hdot : contains_char "." (toLowerCase (l ++ dotted_tail labels)) = true).
  { rewrite contains_char_toLowerCase by reflexivity.
    rewrite contains_char_app. destruct labels; [congruence|].
    simpl. apply orb_true_r. }
  rewrite Heq in Hdot. discriminate Hdot.
Qed.

Lemma find_public_first (before after : list LookupAddress) (entry : LookupAddress) :
  (forall e, In e before -> isPrivateIp (Some (entry_address e)) = Ok true) ->
  isPrivateIp (Some (entry_address entry)) = Ok false ->
  find_public (before ++ entry :: after)%list = Ok (Some entry).
Proof.
  intros Hbefore Hentry. induction before as [|e before IH]; simpl.
  - rewrite Hentry. reflexivity.
  - rewrite (Hbefore e (or_introl eq_refl)). simpl. apply IH.
    intros e' He'. apply Hbefore. right. exact He'.
Qed.

Lemma find_public_none (addresses : list LookupAddress) :
  (forall e, In e addresses -> isPrivateIp (Some (entry_address e)) = Ok true) ->
  find_public addresses = Ok None.
Proof.
  induction addresses as [|e rest IH]; intros Hall; simpl; [reflexivity|].
  rewrite (Hall e (or_introl eq_refl)). simpl. apply IH.
  intros e' He'. apply Hall. right. exact He'.
Qed.

(** [resolveTarget] on a domain name, after its first three checks. *)
Lemma resolveTarget_domain_unfold (dns : string -> result (list LookupAddress))
    (target : string) :
  net.isIP (trim target) = 0 -> isValidDomain (trim target) = true ->
  resolveTarget dns (VString target) =
    match dns (trim target) with
    | Throw message => Throw message
    | Ok addresses =>
        match find_public addresses with
        | Ok (Some entry) =>
            Ok {| hostname := trim target; address := entry_address entry |}
        | Ok None => Throw "Target resolves to a private IP"
        | Throw message => Throw message
        end
    end.
Proof.
  intros Hip Hdom. unfold resolveTarget.
  destruct target as [|c t]; [vm_compute in Hdom; discriminate Hdom|].
  rewrite (isValidDomain_not_localhost _ Hdom), Hip, Hdom.
  destruct (dns (trim (String c t))) as [addresses|]; [|reflexivity].
  change (negb (0 =? 0)) with false. cbv iota. change (negb true) with false. cbv iota.
  unfold mbind, result_bind.
  destruct (find_public addresses) as [[entry|]|]; reflexivity.
Qed.

(** X4: for a target that is a domain name and no IP literal, a rejected
    lookup is passed on with its message; otherwise the first address, in
    the order of the resolver, that [isPrivateIp] classifies as public is
    returned with the trimmed name as hostname, whatever follows it; and
    when every address is private, or there is none, the target is
    refused. *)
Theorem resolveTarget_domain (dns : string -> result (list LookupAddress))
    (target : string) :
  net.isIP (trim target) = 0 -> isValidDomain (trim target) = true ->
  (forall message, dns (trim target) = Throw message ->
     resolveTarget dns (VString target) = Throw message) /\
  (forall before entry after,
     dns (trim target) = Ok (before ++ entry :: after)%list ->
     (forall e, In e before -> isPrivateIp (Some (entry_address e)) = Ok true) ->
     isPrivateIp (Some (entry_address entry)) = Ok false ->
     resolveTarget dns (VString target)
     = Ok {| hostname := trim target; address := entry_address entry |}) /\
  (forall addresses,
     dns (trim target) = Ok addresses ->
     (forall e, In e addresses -> isPrivateIp (Some (entry_address e)) = Ok true) ->
     resolveTarget dns (VString target) = Throw "Target resolves to a private IP").
Proof.
  intros Hip Hdom. rewrite (resolveTarget_domain_unfold dns target Hip Hdom).
  split; [|split].
  - intros message ->. reflexivity.
  - intros before entry after -> Hbefore Hentry.
    rewrite (find_public_first _ _ _ Hbefore Hentry). reflexivity.
  - intros addresses -> Hall. rewrite (find_public_none _ Hall). reflexivity.
Qed.

Lemma resolveTarget_domain_witness :
  resolveTarget sample_dns (VString " example.com")
  = Ok {| hostname := "example.com"; address := "93.184.216.34" |}.
Proof.
  destruct (resolveTarget_domain sample_dns " example.com") as (_ & Hfirst & _);
    [vm_compute; reflexivity | vm_compute; reflexivity |].
  apply (Hfirst [ {| entry_address := "10.0.0.7"; family := 4 |};
                  {| entry_address := "::1"; family := 6 |} ]
                {| entry_address := "93.184.216.34"; family := 4 |}
                [ {| entry_address := "192.168.1.1"; family := 4 |} ]).
  - reflexivity.
  - intros e [<- | [<- | []]]; vm_compute; reflexivity.
  - vm_compute. reflexivity.
Defined.

(** X5: a target that is no string, or the empty string, is reported as
    missing; a target of white space only is not: it is reported as an
    invalid domain name. *)
Theorem resolveTarget_blank (dns : string -> result (list LookupAddress)) :
  (forall target, (forall s, target = VString s -> s = "") ->
     resolveTarget dns target = Throw "Target is required") /\
  (forall s, s <> "" -> trim s = "" ->
     resolveTarget dns (VString s) = Throw "Invalid domain name").
Proof.
  split.
  - intros target Hs. destruct target as [| | | |s| |]; try reflexivity.
    rewrite (Hs s eq_refl). reflexivity.
  - intros s Hne Htrim. unfold resolveTarget.
    destruct s as [|c t]; [contradiction|]. rewrite Htrim. reflexivity.
Qed.

(** ** More on port validation *)

(** A repetition-free list of allowed ports that is not empty passes
    validation as it is. *)
Lemma validatePorts_accepts (out : list number) :
  out <> [] -> List.NoDup out -> (forall p, In p out -> In p ALLOWED_PORTS) ->
  validatePorts (VArray (map VNumber out)) = Ok out.
Proof.
  intros Hne Hnd Hall.
  assert (Hlen : (length out <= 13)%nat).
  { change 13%nat with (length ALLOWED_PORTS).
    apply List.NoDup_incl_length; [exact Hnd | exact Hall]. }
  pose proof (validatePorts_array_cases (map VNumber out)) as Hcases.
  cbv zeta in Hcases.
  rewrite map_Number_VNumber, (first_occurrences_fixed out Hnd) in Hcases.
  destruct Hcases as [(Hnil & _) | [(_ & Hgt & _) | [(_ & _ & (p & Hp & Hnot) & _) | (_ & _ & _ & H)]]].
  - contradiction.
  - lia.
  - exfalso. apply Hnot, Hall, Hp.
  - exact H.
Qed.

(** X6: what a successful validation returns has no repetition, holds only
    allowed ports, each an integer from 21 to 8080, and has between 1 and
    13 members: the limit of 20 is never reached by a valid request. *)
Theorem validatePorts_output (ports : value) (out : list number) :
  validatePorts ports = Ok out ->
  List.NoDup out /\
  (forall p, In p out -> In p ALLOWED_PORTS /\ exists z, p = Num z /\ 21 <= z <= 8080) /\
  (1 <= length out <= 13)%nat.
Proof.
  intros Hok.
  destruct (validatePorts_Ok_inv ports out Hok) as (Hne & _ & Hnd & Hall & _).
  split; [exact Hnd|]. split.
  - intros p Hp. split; [apply Hall, Hp|].
    specialize (Hall p Hp). unfold ALLOWED_PORTS in Hall. simpl in Hall.
    repeat (destruct Hall as [<- | Hall]; [eexists; split; [reflexivity | lia]|]).
    contradiction.
  - split.
    + destruct out; [congruence | simpl; lia].
    + change 13%nat with (length ALLOWED_PORTS).
      apply List.NoDup_incl_length; [exact Hnd | exact Hall].
Qed.

Lemma validatePorts_output_witness :
  List.NoDup [Num 80; Num 443] /\ (1 <= length [Num 80; Num 443] <= 13)%nat.
Proof.
  destruct (validatePorts_output ports_80_443_80 [Num 80; Num 443] eq_refl)
    as (Hnd & _ & Hlen).
  split; [exact Hnd | exact Hlen].
Defined.

Lemma Set_of_In (xs : list number) (x : number) : In x (Set_of xs) <-> In x xs.
Proof.
  change (Set_of xs) with (dedupePorts xs).
  rewrite dedupePorts_first_occurrences. apply first_occurrences_In.
Qed.

Lemma filter_all_false {A : Type} (f : A -> bool) (l : list A) :
  (forall a, In a l -> f a = false) -> List.filter f l = [].
Proof.
  induction l as [|a l IH]; intros H; simpl; [reflexivity|].
  rewrite (H a (or_introl eq_refl)). apply IH. intros b Hb. apply H. right. exact Hb.
Qed.

(** X7: sending again, at the end of the list, ports that the list already
    holds changes nothing: neither the outcome nor the order of the
    validated ports. *)
Theorem validatePorts_repeats (elems extra : list value) :
  (forall e, In e extra -> In (Number e) (map Number elems)) ->
  validatePorts (VArray (elems ++ extra)) = validatePorts (VArray elems).
Proof.
  intros Hextra.
  assert (Hsame : dedupePorts (map Number (elems ++ extra))
                  = dedupePorts (map Number elems)).
  { unfold dedupePorts, Set_of. rewrite map_app, fold_left_app, fold_Set_add.
    fold (Set_of (map Number elems)).
    rewrite filter_all_false; [apply app_nil_r|].
    intros x Hx. apply (proj1 (first_occurrences_In _ _)) in Hx.
    apply in_map_iff in Hx. destruct Hx as (e & <- & He).
    apply negb_false_iff. apply existsb_SameValueZero. apply Set_of_In.
    apply Hextra, He. }
  unfold validatePorts. rewrite Hsame. reflexivity.
Qed.

Lemma validatePorts_repeats_witness :
  validatePorts ports_80_443_80
  = validatePorts (VArray [VNumber (Num 80); VNumber (Num 443)]).
Proof.
  apply (validatePorts_repeats [VNumber (Num 80); VNumber (Num 443)]
                               [VNumber (Num 80)]).
  intros e [<- | []]. simpl. auto.
Defined.

(** X8: the order in which the ports are sent decides the order of the
    validated ports and nothing else: a request that succeeds still succeeds
    when its ports are permuted, with the same ports validated. *)
Theorem validatePorts_permutation (elems elems' : list value) (out : list number) :
  Permutation elems elems' ->
  validatePorts (VArray elems) = Ok out ->
  exists out', validatePorts (VArray elems') = Ok out' /\ Permutation out out'.
Proof.
  intros Hperm Hok.
  destruct (validatePorts_Ok_inv _ _ Hok) as (Hne & Hle & Hnd & Hall & elems0 & [= <-] & Hout).
  set (out' := first_occurrences (map Number elems')).
  assert (Hp : Permutation out out').
  { apply Stdlib.Sorting.Permutation.NoDup_Permutation; [exact Hnd | apply first_occurrences_NoDup|].
    intros x. subst out. unfold out'. rewrite !first_occurrences_In.
    split; apply Permutation_in; [|symmetry]; apply Permutation_map; exact Hperm. }
  exists out'. split; [|exact Hp].
  pose proof (validatePorts_array_cases elems') as Hcases. cbv zeta in Hcases.
  fold out' in Hcases.
  destruct Hcases as [(Hnil & _) | [(_ & Hgt & _) | [(_ & _ & (p & Hp' & Hnot) & _) | (_ & _ & _ & H)]]].
  - rewrite Hnil in Hp. apply Permutation_sym, Permutation_nil in Hp. contradiction.
  - rewrite <- (Permutation_length Hp) in Hgt. lia.
  - exfalso. apply Hnot, Hall. apply (Permutation_in _ (Permutation_sym Hp)), Hp'.
  - exact H.
Qed.

Lemma validatePorts_permutation_witness :
  exists out',
    validatePorts (VArray [VNumber (Num 443); VNumber (Num 80); VNumber (Num 80)])
    = Ok out' /\ Permutation [Num 80; Num 443] out'.
Proof.
  apply (validatePorts_permutation
           [VNumber (Num 80); VNumber (Num 443); VNumber (Num 80)]).
  - apply perm_swap.
  - reflexivity.
Defined.

(** ** Runs of the rate limiter *)

(** A call that is admitted lies at least one window after the timestamp
    the map held for its client when the run started. *)
Lemma admissions_after_record (calls : list (Z * string)) (m : gmap string Z)
    (j : nat) (tj : Z) (c : string) :
  calls !! j = Some (tj, c) ->
  admissions calls m !! j = Some true ->
  RATE_LIMIT_WINDOW_MS <= tj - default 0 (m !! c).
Proof.
  revert m j. induction calls as [|[n c'] rest IH]; intros m j Hj Hadm; [discriminate|].
  simpl in Hadm. rewrite enforceRateLimit_unfold in Hadm.
  destruct (Z.ltb_spec (n - default 0 (m !! c')) RATE_LIMIT_WINDOW_MS) as [Hlt|Hge].
  - destruct j as [|j]; simpl in *; [discriminate|]. eapply IH; eauto.
  - destruct j as [|j]; simpl in *.
    + inversion Hj; subst. exact Hge.
    + specialize (IH _ _ Hj Hadm).
      destruct (decide (c' = c)) as [->|Hne].
      * rewrite lookup_insert_eq in IH. simpl in IH.
        unfold RATE_LIMIT_WINDOW_MS in *. lia.
      * rewrite lookup_insert_ne in IH by exact Hne. exact IH.
Qed.

(** X9: in any sequence of calls, whatever the clock does, two calls of one
    client that are both admitted are at least 10000 ms apart. *)
Theorem admissions_spaced (calls : list (Z * string)) (m : gmap string Z)
    (i j : nat) (ti tj : Z) (c : string) :
  (i < j)%nat ->
  calls !! i = Some (ti, c) -> calls !! j = Some (tj, c) ->
  admissions calls m !! i = Some true -> admissions calls m !! j = Some true ->
  RATE_LIMIT_WINDOW_MS <= tj - ti.
Proof.
  revert m i j. induction calls as [|[n c'] rest IH]; intros m i j Hij Hi Hj Ai Aj;
    [discriminate|].
  destruct j as [|j]; [lia|].
  simpl in Ai, Aj. rewrite enforceRateLimit_unfold in Ai, Aj.
  destruct i as [|i]; simpl in *.
  - inversion Hi; subst n c'.
    destruct (ti - default 0 (m !! c) <? RATE_LIMIT_WINDOW_MS); [discriminate|].
    pose proof (admissions_after_record _ _ _ _ _ Hj Aj) as H.
    rewrite lookup_insert_eq in H. exact H.
  - destruct (n - default 0 (m !! c') <? RATE_LIMIT_WINDOW_MS);
      eapply (IH _ i j); eauto; lia.
Qed.

Lemma admissions_spaced_witness :
  admissions [ (1700000000000, "203.0.113.9"); (1700000003000, "203.0.113.9");
               (1700000012000, "203.0.113.9") ] ∅ = [true; false; true] /\
  RATE_LIMIT_WINDOW_MS <= 1700000012000 - 1700000000000.
Proof.
  split; [reflexivity|].
  apply (admissions_spaced
           [ (1700000000000, "203.0.113.9"); (1700000003000, "203.0.113.9");
             (1700000012000, "203.0.113.9") ] ∅ 0 2 _ _ "203.0.113.9").
  - lia.
  - reflexivity.
  - reflexivity.
  - reflexivity.
  - reflexivity.
Defined.

(** ** The socket of a probe *)

Section Destroyed.

Variables (start : Z) (p : number).

(** Once destroyed and resolved, a probe stays so. *)
Lemma emit_destroyed (st : probe) (ev : socket_event) :
  destroyed st = true /\ resolved st = true ->
  destroyed (emit start p st ev) = true /\ resolved (emit start p st ev) = true.
Proof.
  intros [Hd Hr]. unfold emit, closeSocket, resolve.
  destruct st as [tmo dst rsv oc ot oe out]; simpl in Hd, Hr; subst dst rsv.
  destruct ev as [now| |err]; simpl; handler_cases; auto.
Qed.

Lemma run_destroyed (evs : list socket_event) (st : probe) :
  destroyed st = true /\ resolved st = true ->
  destroyed (fold_left (emit start p) evs st) = true /\
  resolved (fold_left (emit start p) evs st) = true.
Proof.
  revert st. induction evs as [|ev evs IH]; intros st Hst; simpl; [exact Hst|].
  apply IH. apply emit_destroyed. exact Hst.
Qed.

End Destroyed.

(** X10: on a port that [socket.connect] accepts, every probe ends with its
    socket destroyed, its [resolved] flag set and its promise fulfilled:
    the handler of the first event does all three, and nothing that
    happens on the socket afterwards undoes them. *)
Theorem performPortCheck_destroys_socket (connect : string -> number -> connection)
    (host : string) (p : number) (timeoutMs : option Z) :
  validatePort p = true ->
  destroyed (performPortCheck connect host p timeoutMs) = true /\
  resolved (performPortCheck connect host p timeoutMs) = true /\
  exists r, outcome (performPortCheck connect host p timeoutMs) = Fulfilled r.
Proof.
  intros Hp.
  assert (Hflags : destroyed (performPortCheck connect host p timeoutMs) = true /\
                   resolved (performPortCheck connect host p timeoutMs) = true).
  { unfold performPortCheck. rewrite Hp.
    match goal with
    | |- context [socket_events ?socket ?conn] =>
        destruct (socket_events_first socket conn _ eq_refl) as [rest ->]
    end.
    simpl fold_left. apply run_destroyed.
    destruct (first_event _ _) as [now| |err]; simpl; [auto | auto |].
    destruct (is_refused err); auto. }
  destruct Hflags as [Hd Hr]. split; [exact Hd|]. split; [exact Hr|].
  rewrite (performPortCheck_first_event _ _ _ _ Hp). eauto.
Qed.

Lemma performPortCheck_destroys_socket_witness :
  destroyed (performPortCheck refused_network "93.184.216.34" (Num 80) None) = true /\
  outcome (performPortCheck refused_network "93.184.216.34" (Num 80) None)
  = Fulfilled {| port := Num 80; status := closed; latency_ms := None |}.
Proof.
  destruct (performPortCheck_destroys_socket refused_network "93.184.216.34" (Num 80)
              None eq_refl) as (Hd & _ & _).
  split; [exact Hd | reflexivity].
Defined.

(** ** More on the request handler *)




(** The answer to an admitted request whose [try] block is rejected. *)
Lemma handleScan_Rejected (w : world) (req : request) (m : gmap string Z)
    (message : string) :
  fst (enforceRateLimit (Date_now w) (client_id req) m) = true ->
  scan_admitted w req = Rejected message ->
  message <> "" ->
  fst (handleScan w req m)
  = Some (error_response (if includes "rate" message then 429 else 400) message).
Proof.
  intros Ha Hrej Hne. unfold handleScan.
  destruct (enforceRateLimit (Date_now w) (client_id req) m) as [admitted m1].
  simpl in Ha. subst admitted. simpl. rewrite Hrej. simpl.
  destruct message; [congruence|]. reflexivity.
Qed.



(** X12: when the lookup of a valid domain name is rejected, an admitted
    request is answered with the message of the rejection, with status 429
    if that message contains "rate" and 400 otherwise. *)
Theorem handleScan_lookup_rejected (w : world) (req : request) (m : gmap string Z)
    (payload ports : value) (validated : list number) (target message : string) :
  fst (enforceRateLimit (Date_now w) (client_id req) m) = true ->
  JSON_parse w (body_text req) = Ok payload ->
  destructure payload = Ok (VString target, ports) ->
  validatePorts ports = Ok validated ->
  net.isIP (trim target) = 0 ->
  isValidDomain (trim target) = true ->
  dns_lookup w (trim target) = Throw message ->
  message <> "" ->
  fst (handleScan w req m)
  = Some (error_response (if includes "rate" message then 429 else 400) message).
Proof.
  intros Ha Hp Hd Hv Hip Hdom Hdns Hne.
  apply handleScan_Rejected; [exact Ha | | exact Hne].
  unfold scan_admitted. rewrite Hp. simpl. rewrite Hd. simpl. rewrite Hv. simpl.
  unfold resolveTarget. destruct target as [|c t]; [vm_compute in Hdom; discriminate Hdom|].
  rewrite (isValidDomain_not_localhost _ Hdom), Hip, Hdom. simpl. rewrite Hdns. reflexivity.
Qed.

Lemma handleScan_lookup_rejected_witness :
  fst (handleScan (not_found_world 1700000000000 "pirate.example") sample_request ∅)
  = Some (error_response 429 "getaddrinfo ENOTFOUND pirate.example") /\
  fst (handleScan (not_found_world 1700000000000 "nowhere.example") sample_request ∅)
  = Some (error_response 400 "getaddrinfo ENOTFOUND nowhere.example").
Proof.
  split.
  - apply (handleScan_lookup_rejected (not_found_world 1700000000000 "pirate.example")
             sample_request ∅
             (VObject [ ("target", VString "pirate.example");
                        ("ports", VArray [VNumber (Num 80)]) ])
             (VArray [VNumber (Num 80)]) [Num 80] "pirate.example"
             "getaddrinfo ENOTFOUND pirate.example");
      (reflexivity || discriminate).
  - apply (handleScan_lookup_rejected (not_found_world 1700000000000 "nowhere.example")
             sample_request ∅
             (VObject [ ("target", VString "nowhere.example");
                        ("ports", VArray [VNumber (Num 80)]) ])
             (VArray [VNumber (Num 80)]) [Num 80] "nowhere.example"
             "getaddrinfo ENOTFOUND nowhere.example");
      (reflexivity || discriminate).
Defined.

(** [socket.connect] accepts every allowed port. *)
Lemma allowed_port_valid (p : number) : In p ALLOWED_PORTS -> validatePort p = true.
Proof.
  unfold ALLOWED_PORTS. simpl. intros H.
  repeat (destruct H as [<- | H]; [reflexivity|]). contradiction.
Qed.

(** On ports that [socket.connect] accepts, the loop ends with its
    results: every probe is settled by an event of the network or by the
    timer. *)
Lemma scan_ports_valid (w : world) (addr : string) (ports : list number)
    (acc : list PortResult) :
  (forall p, In p ports -> validatePort p = true) ->
  exists rs, scan_ports w addr ports acc = Fulfilled rs.
Proof.
  revert acc. induction ports as [|p ports IH]; intros acc Hvalid; simpl; [eauto|].
  rewrite (performPortCheck_first_event _ _ _ _ (Hvalid p (or_introl eq_refl))).
  simpl. apply IH. intros q Hq. apply Hvalid. right. exact Hq.
Qed.

Lemma scan_ports_validated (w : world) (addr : string) (ports : value)
    (validated : list number) :
  validatePorts ports = Ok validated ->
  exists rs, scan_ports w addr validated [] = Fulfilled rs.
Proof.
  intros Hv. apply scan_ports_valid.
  destruct (validatePorts_Ok_inv _ _ Hv) as (_ & _ & _ & Hall & _).
  intros p Hp. apply allowed_port_valid, Hall, Hp.
Qed.



(** X14: when every socket emits at least one event, every request is
    answered. *)
Theorem handleScan_answers (w : world) (req : request) (m : gmap string Z) :
  (forall host p, events (socket_connect w host p) <> []) ->
  exists resp, fst (handleScan w req m) = Some resp.
Proof.
  intros Hlive. unfold handleScan.
  destruct (enforceRateLimit (Date_now w) (client_id req) m) as [admitted m1].
  destruct admitted; simpl; [|eauto].
  assert (Hnp : scan_admitted w req <> Pending).
  { unfold scan_admitted.
    destruct (JSON_parse w (body_text req)) as [payload|]; simpl; [|discriminate].
    destruct (destructure payload) as [tp|]; simpl; [|discriminate].
    destruct (validatePorts (snd tp)) as [validated|] eqn:Hv; simpl; [|discriminate].
    destruct (resolveTarget (dns_lookup w) (fst tp)) as [rt|]; simpl; [|discriminate].
    destruct (scan_ports_validated w (address rt) _ _ Hv) as [rs ->].
    simpl. discriminate. }
  destruct (scan_admitted w req); simpl; eauto. congruence.
Qed.

Lemma handleScan_answers_witness :
  exists resp, fst (handleScan sample_world sample_request ∅) = Some resp.
Proof.
  apply handleScan_answers.
  intros host p. unfold sample_world, sample_network. simpl.
  destruct (SameValueZero p (Num 443)); discriminate.
Defined.

(** Every result of the loop is an accumulated one or the outcome of the
    probe of its port. *)
Lemma scan_ports_outcomes (w : world) (addr : string) (ports : list number)
    (acc rs : list PortResult) :
  scan_ports w addr ports acc = Fulfilled rs ->
  forall r, In r rs ->
    In r acc \/
    (In (port r) ports /\
     outcome (performPortCheck (socket_connect w) addr (port r) None) = Fulfilled r).
Proof.
  revert acc. induction ports as [|p ports IH]; intros acc Hrs r Hr; simpl in Hrs.
  - inversion Hrs; subst. auto.
  - destruct (outcome (performPortCheck (socket_connect w) addr p None))
      as [|r0|msg] eqn:Ho; try discriminate.
    simpl in Hrs. destruct (IH _ Hrs r Hr) as [Hacc | [Hin Hout]].
    + apply in_app_or in Hacc. destruct Hacc as [Hacc | [<- | []]]; [auto|].
      right. rewrite (performPortCheck_outcome_port _ _ _ _ _ Ho).
      split; [left; reflexivity | exact Ho].
    + right. split; [right; exact Hin | exact Hout].
Qed.

(** X15: in the answer to a successful scan, the target and the ip are the
    hostname and the address that [resolveTarget] returned for the
    requested target, the ip is an IP literal that [isPrivateIp] classifies
    as public, and every result is the outcome of the probe of that ip at
    the result's port, run with the default timeout of 1000 ms. *)
Theorem handleScan_success_content (w : world) (req : request)
    (m m' : gmap string Z) (resp : response) (scan : ScanResult) :
  handleScan w req m = (Some resp, m') ->
  body resp = ScanBody scan ->
  statusCode resp = 200 /\
  (exists payload target ports rt,
     JSON_parse w (body_text req) = Ok payload /\
     destructure payload = Ok (target, ports) /\
     resolveTarget (dns_lookup w) target = Ok rt /\
     scan_target scan = hostname rt /\ scan_ip scan = address rt) /\
  (net.isIP (scan_ip scan) = 4 \/ net.isIP (scan_ip scan) = 6) /\
  isPrivateIp (Some (scan_ip scan)) = Ok false /\
  (forall r, In r (results scan) ->
     outcome (performPortCheck (socket_connect w) (scan_ip scan) (port r) None)
     = Fulfilled r /\
     socket_timeout (performPortCheck (socket_connect w) (scan_ip scan) (port r) None)
     = Some 1000).
Proof.
  intros H Hbody.
  destruct (handleScan_ScanBody _ _ _ _ _ _ H Hbody) as [Hscan Hcode].
  destruct (scan_admitted_Fulfilled _ _ _ Hscan)
    as (payload & target & ports & validated & rt & Hp & Hd & Hv & Hrt & Hloop & Ht & Hi).
  destruct (resolveTarget_address_classified _ _ _ Hrt) as [Hlit Hpub].
  split; [exact Hcode|].
  split; [exists payload, target, ports, rt; auto|].
  rewrite Hi. split; [exact Hlit|]. split; [exact Hpub|].
  intros r Hr.
  destruct (scan_ports_outcomes _ _ _ _ _ Hloop r Hr) as [[] | [_ Hout]].
  split; [exact Hout|].
  rewrite performPortCheck_socket_timeout. reflexivity.
Qed.

Lemma handleScan_success_content_witness :
  scan_ip sample_scan = "8.8.8.8" /\
  isPrivateIp (Some (scan_ip sample_scan)) = Ok false.
Proof.
  split; [reflexivity|].
  apply (handleScan_success_content sample_world sample_request ∅
           (<["203.0.113.9" := 1700000000000]> ∅)
           {| statusCode := 200;
              headers := corsHeaders [("Content-Type", "application/json")];
              body := ScanBody sample_scan |} sample_scan);
    reflexivity.
Defined.

(** ** The request listener *)

(** The handler changes the map at the client of the request only. *)
Lemma handleScan_frame (w : world) (req : request) (m : gmap string Z) (c : string) :
  c <> client_id req -> snd (handleScan w req m) !! c = m !! c.
Proof.
  intros Hc. unfold handleScan. rewrite enforceRateLimit_unfold.
  destruct (Date_now w - default 0 (m !! client_id req) <? RATE_LIMIT_WINDOW_MS);
    simpl; [reflexivity|].
  destruct (scan_admitted w req); simpl; rewrite lookup_insert_ne; congruence.
Qed.

(** X16: a POST to /scan that the rate limiter admits sets the entry of its
    client in the rate-limit map to the time of the request; in every other
    case, and for every other client, the listener leaves the entry as it
    was. *)
Theorem server_state_frame (w : world) (req : http_request) (m : gmap string Z)
    (c : string) :
  (method req = "POST" -> url req = "/scan" -> c = client_id (incoming req) ->
   fst (enforceRateLimit (Date_now w) c m) = true ->
   snd (server w req m) !! c = Some (Date_now w)) /\
  (~ (method req = "POST" /\ url req = "/scan" /\ c = client_id (incoming req) /\
      fst (enforceRateLimit (Date_now w) c m) = true) ->
   snd (server w req m) !! c = m !! c).
Proof.
  unfold server. split.
  - intros Hm Hu -> Ha. rewrite Hm, Hu. simpl.
    destruct (handleScan w (incoming req) m) as [r m'] eqn:Hh. simpl.
    assert (Hm' : m' = snd (handleScan w (incoming req) m)) by (rewrite Hh; reflexivity).
    rewrite Hm', (handleScan_admitted_state _ _ _ Ha). apply lookup_insert_eq.
  - intros Hnot.
    destruct (String.eqb_spec (method req) "OPTIONS"); [reflexivity|].
    destruct (String.eqb_spec (url req) "/scan") as [Hu|]; simpl; [|reflexivity].
    destruct (String.eqb_spec (method req) "POST") as [Hm|]; simpl; [|reflexivity].
    destruct (handleScan w (incoming req) m) as [r m'] eqn:Hh. simpl.
    assert (Hm' : m' = snd (handleScan w (incoming req) m)) by (rewrite Hh; reflexivity).
    rewrite Hm'.
    destruct (decide (c = client_id (incoming req))) as [->|Hne];
      [|apply handleScan_frame; exact Hne].
    destruct (fst (enforceRateLimit (Date_now w) (client_id (incoming req)) m)) eqn:Ha.
    + exfalso. apply Hnot. auto.
    + rewrite (handleScan_rate_limited _ _ _ Ha). reflexivity.
Qed.

(** X17: every reply of the listener carries the three CORS headers. A
    preflight request is answered 204 without a body and without a content
    type, whatever its URL. The refusal of the rate limiter is a 429 with
    its message as body and no content type. Every other reply has a body
    and declares it as JSON. *)
Theorem server_cors (w : world) (req : http_request) (m : gmap string Z) (r : reply) :
  fst (server w req m) = Some r ->
  (header "Access-Control-Allow-Origin" (reply_headers r) = Some "*" /\
   header "Access-Control-Allow-Methods" (reply_headers r) = Some "POST, OPTIONS" /\
   header "Access-Control-Allow-Headers" (reply_headers r) = Some "Content-Type") /\
  (method req = "OPTIONS" ->
   reply_status r = 204 /\ reply_body r = None /\
   header "Content-Type" (reply_headers r) = None) /\
  (method req = "POST" -> url req = "/scan" ->
   fst (enforceRateLimit (Date_now w) (client_id (incoming req)) m) = false ->
   reply_status r = 429 /\
   reply_body r = Some (ErrorBody "Too many requests: wait 10 seconds between scans.") /\
   header "Content-Type" (reply_headers r) = None) /\
  (method req <> "OPTIONS" ->
   ~ (method req = "POST" /\ url req = "/scan" /\
      fst (enforceRateLimit (Date_now w) (client_id (incoming req)) m) = false) ->
   is_Some (reply_body r) /\
   header "Content-Type" (reply_headers r) = Some "application/json").
Proof.
  unfold server. intros Hr.
  destruct (String.eqb_spec (method req) "OPTIONS") as [Ho|Ho].
  - inversion Hr; subst r. simpl.
    split; [repeat split|]. split; [intros _; repeat split|].
    split; [intros Hp; rewrite Hp in Ho; discriminate Ho | contradiction].
  - destruct (String.eqb_spec (url req) "/scan") as [Hu|Hu]; simpl in Hr.
    + destruct (String.eqb_spec (method req) "POST") as [Hm|Hm]; simpl in Hr.
      * unfold handleScan in Hr.
        destruct (enforceRateLimit (Date_now w) (client_id (incoming req)) m)
          as [admitted m1].
        destruct admitted; simpl in Hr.
        -- assert (Hjson : is_Some (reply_body r) /\
                           reply_headers r
                           = corsHeaders [("Content-Type", "application/json")]).
           { destruct (scan_admitted w (incoming req)); simpl in Hr; inversion Hr;
               subst r; simpl; split; eauto. }
           destruct Hjson as [Hbody ->].
           split; [repeat split|]. split; [contradiction|].
           split; [discriminate|]. intros _ _. split; [exact Hbody | reflexivity].
        -- inversion Hr; subst r. simpl.
           split; [repeat split|]. split; [contradiction|].
           split; [intros _ _ _; repeat split|].
           intros _ Hnot. exfalso. apply Hnot. auto.
      * inversion Hr; subst r. simpl.
        split; [repeat split|]. split; [contradiction|].
        split; [contradiction|]. intros _ _. split; [eauto | reflexivity].
    + inversion Hr; subst r. simpl.
      split; [repeat split|]. split; [contradiction|].
      split; [contradiction|]. intros _ _. split; [eauto | reflexivity].
Qed.

Lemma server_cors_witness :
  reply_status (reply_of too_many_requests) = 429 /\
  header "Content-Type" (reply_headers (reply_of too_many_requests)) = None /\
  header "Access-Control-Allow-Origin" (reply_headers (reply_of too_many_requests))
  = Some "*".
Proof.
  assert (Hr : fst (server sample_world
                      {| method := "POST"; url := "/scan"; incoming := sample_request |}
                      (<["203.0.113.9" := 1699999997000]> ∅))
               = Some (reply_of too_many_requests)) by (vm_compute; reflexivity).
  destruct (server_cors _ _ _ _ Hr) as ((Ho & _) & _ & Hlimit & _).
  assert (Hrefused : fst (enforceRateLimit (Date_now sample_world)
                            (client_id sample_request)
                            (<["203.0.113.9" := 1699999997000]> ∅)) = false)
    by (vm_compute; reflexivity).
  destruct (Hlimit eq_refl eq_refl Hrefused) as (Hs & _ & Hc).
  split; [exact Hs|]. split; [exact Hc | exact Ho].
Defined.

(** ** The client *)

Lemma strict_eq_Num (p : number) (z : Z) : strict_eq p (Num z) = true <-> p = Num z.
Proof.
  destruct p as [|a| |]; simpl; try (split; discriminate).
  rewrite Z.eqb_eq. split; congruence.
Qed.

(** X18: toggling a port flips whether it is selected and leaves every other
    port as it was; toggling twice a port that was not selected restores the
    selection. *)
Theorem togglePort_flips (z : Z) (sel : list number) :
  (In (Num z) (App.togglePort (Num z) sel) <-> ~ In (Num z) sel) /\
  (forall q, q <> Num z -> (In q (App.togglePort (Num z) sel) <-> In q sel)) /\
  (~ In (Num z) sel -> App.togglePort (Num z) (App.togglePort (Num z) sel) = sel).
Proof.
  unfold App.togglePort.
  destruct (Array_includes sel (Num z)) eqn:Hin.
  - apply Array_includes_In in Hin. split; [|split].
    + rewrite List.filter_In. split; [|contradiction].
      intros [_ H]. apply negb_true_iff in H.
      assert (Ht : strict_eq (Num z) (Num z) = true) by (apply strict_eq_Num; reflexivity).
      congruence.
    + intros q Hq. rewrite List.filter_In. split; [tauto|].
      intros H. split; [exact H|]. apply negb_true_iff.
      destruct (strict_eq q (Num z)) eqn:E; [|reflexivity].
      apply strict_eq_Num in E. contradiction.
    + contradiction.
  - assert (Hnot : ~ In (Num z) sel).
    { intros H. apply Array_includes_In in H. congruence. }
    split; [|split].
    + split; [tauto|]. intros _. apply in_or_app. right. left. reflexivity.
    + intros q Hq. rewrite in_app_iff. simpl. split; [|tauto].
      intros [H | [H | []]]; [exact H | congruence].
    + intros _.
      assert (Hnow : Array_includes (sel ++ [Num z]) (Num z) = true).
      { apply Array_includes_In. apply in_or_app. right. left. reflexivity. }
      rewrite Hnow, List.filter_app. simpl. rewrite Z.eqb_refl. simpl.
      rewrite app_nil_r. apply List.forallb_filter_id. apply forallb_forall.
      intros q Hq. apply negb_true_iff.
      destruct (strict_eq q (Num z)) eqn:E; [|reflexivity].
      apply strict_eq_Num in E. subst q. contradiction.
Qed.

Lemma NoDup_snoc {A : Type} (l : list A) (a : A) :
  List.NoDup l -> ~ In a l -> List.NoDup (l ++ [a]).
Proof.
  induction 1 as [|x l Hx Hnd IH]; intros Ha; simpl.
  - constructor; [tauto | constructor].
  - constructor.
    + rewrite in_app_iff. simpl. intros [H | [H | []]]; [contradiction|].
      apply Ha. left. symmetry. exact H.
    + apply IH. intros H. apply Ha. right. exact H.
Qed.

(** The selection keeps no repetition and stays within [ports]. *)
Lemma togglePort_invariant (ports sel : list number) (port : number) :
  In port ports ->
  List.NoDup sel /\ incl sel ports ->
  List.NoDup (App.togglePort port sel) /\ incl (App.togglePort port sel) ports.
Proof.
  intros Hport [Hnd Hincl]. unfold App.togglePort.
  destruct (Array_includes sel port) eqn:Hin.
  - split; [apply List.NoDup_filter; exact Hnd|].
    intros q Hq. apply List.filter_In in Hq. apply Hincl, Hq.
  - split.
    + apply NoDup_snoc; [exact Hnd|].
      intros H. apply Array_includes_In in H. congruence.
    + intros q Hq. apply in_app_or in Hq. destruct Hq as [Hq | [<- | []]]; auto.
Qed.

Lemma toggles_invariant (toggles : list number) (sel : list number) :
  (forall p, In p toggles -> In p App.ALLOWED_PORTS) ->
  List.NoDup sel /\ incl sel App.ALLOWED_PORTS ->
  List.NoDup (fold_left (fun s p => App.togglePort p s) toggles sel) /\
  incl (fold_left (fun s p => App.togglePort p s) toggles sel) App.ALLOWED_PORTS.
Proof.
  revert sel. induction toggles as [|p toggles IH]; intros sel Hall Hinv; simpl;
    [exact Hinv|].
  apply IH.
  - intros q Hq. apply Hall. right. exact Hq.
  - apply togglePort_invariant; [apply Hall; left; reflexivity | exact Hinv].
Qed.

(** X19: whatever check boxes are toggled, in whatever order, when the form
    posts a request then its target is the trimmed, non-empty input and its
    ports are the selection, which the server's [validatePorts] accepts
    as it is. *)
Theorem App_posts_valid_ports (toggles : list number) (target : string) (body : value) :
  (forall p, In p toggles -> In p App.ALLOWED_PORTS) ->
  App.handleScan target
    (fold_left (fun s p => App.togglePort p s) toggles App.initial_selectedPorts)
  = App.Post body ->
  exists ports,
    destructure body = Ok (VString (trim target), ports) /\
    trim target <> "" /\
    validatePorts ports
    = Ok (fold_left (fun s p => App.togglePort p s) toggles App.initial_selectedPorts).
Proof.
  intros Hall. set (sel := fold_left _ toggles App.initial_selectedPorts).
  assert (Hinv : List.NoDup sel /\ incl sel App.ALLOWED_PORTS).
  { apply toggles_invariant; [exact Hall|]. split.
    - repeat constructor; simpl; intuition discriminate.
    - intros q [<- | [<- | []]]; simpl; auto 10. }
  unfold App.handleScan.
  destruct (String.eqb_spec (trim target) ""); [discriminate|].
  destruct (Nat.eqb_spec (length sel) 0); [discriminate|].
  intros [= <-]. exists (VArray (map VNumber sel)).
  split; [reflexivity|]. split; [assumption|].
  apply validatePorts_accepts.
  - destruct sel; [simpl in *; congruence | discriminate].
  - apply Hinv.
  - apply Hinv.
Qed.

Lemma App_posts_valid_ports_witness :
  exists ports,
    destructure
      (VObject [ ("target", VString "example.com");
                 ("ports", VArray [VNumber (Num 443); VNumber (Num 22)]) ])
    = Ok (VString (trim " example.com "), ports) /\
    trim " example.com " <> "" /\
    validatePorts ports = Ok [Num 443; Num 22].
Proof.
  apply (App_posts_valid_ports [Num 80; Num 22] " example.com ").
  - intros p [<- | [<- | []]]; simpl; auto 10.
  - reflexivity.
Defined.

Lemma firstn_app_firstn {A : Type} (l m : list A) (n k : nat) :
  (n <= k)%nat -> firstn n (l ++ firstn k m) = firstn n (l ++ m).
Proof.
  revert n. induction l as [|x l IH]; intros n Hn; simpl.
  - rewrite firstn_firstn. f_equal. lia.
  - destruct n as [|n]; [reflexivity|]. simpl. f_equal. apply IH. lia.
Qed.

(** X20: after any sequence of answered scans, what the page stores is the
    five most recent answers, the newest first, followed by what is left of
    the history it started from. *)
Theorem saveHistory_recent {A : Type} (scans history : list A) :
  App.saveHistory (fold_left (fun h data => App.updatedHistory data h) scans history)
  = firstn 5 (rev scans ++ history).
Proof.
  unfold App.saveHistory. revert history.
  induction scans as [|d scans IH]; intros history; [reflexivity|].
  cbn [fold_left rev]. rewrite IH. unfold App.updatedHistory.
  rewrite firstn_app_firstn by lia. rewrite <- app_assoc. reflexivity.
Qed.
